(** * tf2-vpkunpack: the parent-aware glob matcher, the SI size formatter and
    the extraction loop, embedded from [internal/util.go] and
    [cmd/tf2-vpkunpack/main.go].

    Go strings are byte strings and are modelled by [string]; [int64] and
    [uint64] values are integers of [Z] with the wrap-around written out;
    [float64] is the binary64 format of the standard library's [SpecFloat]. *)

From Stdlib Require Import ZArith Lia Ascii.
From Stdlib Require Import Floats.SpecFloat.
From Stdlib Require DecimalString.
From stdpp Require Import gmap strings sorting.
From Equations Require Import Equations.

Local Open Scope Z_scope.

(** ** Go's [strings], [path] and [fmt] helpers used by the two files *)

Module Go.

(** Does the byte [c] occur in [s]? *)
Fixpoint has_byte (c : ascii) (s : string) : bool :=
  match s with
  | EmptyString => false
  | String d rest => Ascii.eqb c d || has_byte c rest
  end.

(** [strings.HasPrefix(s, prefix)]. *)
Definition HasPrefix (s prefix : string) : bool := String.prefix prefix s.

(** The slice expression [s[1:]] on a string that is not empty. *)
Definition tail (s : string) : string :=
  match s with
  | EmptyString => EmptyString
  | String _ rest => rest
  end.

(** [strings.TrimRight(s, cutset)]: [s] without its longest suffix made of
    bytes of [cutset]. *)
Fixpoint TrimRight (s cutset : string) : string :=
  match s with
  | EmptyString => EmptyString
  | String c rest =>
      match TrimRight rest cutset with
      | EmptyString => if has_byte c cutset then EmptyString else String c EmptyString
      | t => String c t
      end
  end.

(** [path.Split(p)]: [p] cut immediately after its final slash, [(dir, file)];
    without a slash, [dir] is empty and [file] is [p]. *)
Fixpoint Split (p : string) : string * string :=
  match p with
  | EmptyString => (EmptyString, EmptyString)
  | String c rest =>
      match Split rest with
      | (EmptyString, _) =>
          if Ascii.eqb c "/" then (String c EmptyString, rest)
          else (EmptyString, String c rest)
      | (dir, file) => (String c dir, file)
      end
  end.

(** The verb [%d] of [fmt]: decimal digits, a minus sign before a negative
    number. *)
Definition fmt_d (z : Z) : string :=
  DecimalString.NilZero.string_of_int (Z.to_int z).

(** The verb [%4d]: [%d] padded with spaces on the left to width four. *)
Definition fmt_4d (z : Z) : string :=
  let s := fmt_d z in
  String.concat "" (replicate (4 - String.length s)%nat " ") +:+ s.

(** [int64] and [uint64] arithmetic wraps around. *)
Definition int64_min : Z := - 2 ^ 63.
Definition int64_max : Z := 2 ^ 63 - 1.
Definition wrap_int64 (z : Z) : Z := (z + 2 ^ 63) mod 2 ^ 64 - 2 ^ 63.
Definition wrap_uint64 (z : Z) : Z := z mod 2 ^ 64.
Definition is_int64 (z : Z) : Prop := int64_min <= z <= int64_max.

(** [float64]: IEEE 754 binary64, 53 bits of precision. *)
Definition float64 : Type := spec_float.

(** The conversion [float64(b)] of an integer, rounded to nearest even. *)
Definition float64_of_int (b : Z) : float64 := binary_normalize 53 1024 b 0 false.

(** The quotient [x / y] of two [float64]. *)
Definition float64_div (x y : float64) : float64 := SFdiv 53 1024 x y.

(** [m * 2^e] in tenths, rounded to the nearest integer, ties to even: the
    decimal rounding [strconv] applies to the exact value of a float. *)
Definition tenths (m : positive) (e : Z) : Z :=
  match e with
  | Zneg k =>
      let num := 10 * Zpos m in
      let den := 2 ^ Zpos k in
      let q := num / den in
      let r := num mod den in
      match 2 * r ?= den with
      | Lt => q
      | Gt => q + 1
      | Eq => if Z.even q then q else q + 1
      end
  | _ => 10 * Zpos m * 2 ^ e
  end.

(** The verb [%.1f]: one digit after the decimal point. *)
Definition fmt_1f (x : float64) : string :=
  match x with
  | S754_zero s => (if s then "-0.0" else "0.0")
  | S754_infinity s => (if s then "-Inf" else "+Inf")
  | S754_nan => "NaN"
  | S754_finite s m e =>
      let t := tenths m e in
      (if s then "-" else "") +:+ fmt_d (t / 10) +:+ "." +:+ fmt_d (t mod 10)
  end.

(** The index expression [s[i]]; out of range it panics ([None]). *)
Definition index (s : string) (i : nat) : option ascii := String.get i s.

(** The verb [%c] for a byte. *)
Definition fmt_c (c : ascii) : string := String c EmptyString.

(** *** Facts on [Split] and [TrimRight] that make the matcher's loop terminate *)

Lemma Split_length (p : string) :
  (String.length (fst (Split p)) <= String.length p)%nat
  /\ (snd (Split p) = EmptyString -> p <> EmptyString ->
      exists q, fst (Split p) = q +:+ "/")
  /\ (snd (Split p) <> EmptyString ->
      (String.length (fst (Split p)) < String.length p)%nat).
Proof.
  induction p as [|c p IH]; simpl.
  - split; [lia|]. split; [congruence|]. intros H; congruence.
  - destruct (Split p) as [d f] eqn:E. simpl in IH.
    destruct IH as (IH1 & IH2 & IH3).
    destruct d as [|d0 d].
    + destruct (Ascii.eqb_spec c "/") as [->|Hc]; simpl.
      * split; [lia|]. split.
        -- intros -> _. exists EmptyString. reflexivity.
        -- intros Hp. destruct p; [congruence|]. simpl. lia.
      * split; [lia|]. split; [congruence|]. intros _. lia.
    + simpl in *. split; [lia|]. split.
      * intros Hf _. destruct (IH2 Hf) as [q Hq].
        { intros ->. simpl in E. congruence. }
        exists (String c q). rewrite Hq. reflexivity.
      * intros Hf. specialize (IH3 Hf). simpl in IH3. lia.
Qed.

Lemma TrimRight_length (s cutset : string) :
  (String.length (TrimRight s cutset) <= String.length s)%nat.
Proof.
  induction s as [|c s IH]; simpl; [lia|].
  destruct (TrimRight s cutset); [destruct (has_byte c cutset)|]; simpl in *; lia.
Qed.

Lemma TrimRight_slash_shorter (q : string) :
  (String.length (TrimRight (q +:+ "/") "/") < String.length (q +:+ "/"))%nat.
Proof.
  induction q as [|c q IH]; simpl; [lia|].
  destruct (TrimRight (q +:+ "/") "/"); [destruct (_ || _)|]; simpl in *; lia.
Qed.

(** The next name of the loop is strictly shorter than the current one. *)
Lemma parent_shorter (name : string) :
  name <> EmptyString ->
  (String.length (TrimRight (fst (Split name)) "/") < String.length name)%nat.
Proof.
  intros Hne.
  destruct (Split_length name) as (H1 & H2 & H3).
  destruct (String.string_dec (snd (Split name)) EmptyString) as [Hb|Hb].
  - destruct (H2 Hb Hne) as [q Hq]. rewrite Hq in *.
    pose proof (TrimRight_slash_shorter q). lia.
  - specialize (H3 Hb). pose proof (TrimRight_length (fst (Split name)) "/"). lia.
Qed.

End Go.

(** ** [internal/util.go] *)

Module internal.

(** The [error] values of [path.Match]: only [path.ErrBadPattern]. *)
Inductive error : Type := ErrBadPattern.

(** [err.Error()], which the verb [%v] prints. *)
Definition Error (err : error) : string :=
  match err with ErrBadPattern => "syntax error in pattern" end.

(** A result [(matched bool, err error)]; [None] is [nil]. *)
Definition match_result : Type := (bool * option error)%type.

(** The test [m || err != nil] on a result of [path.Match]. *)
Definition settled (r : match_result) : bool :=
  fst r || match snd r with Some _ => true | None => false end.

Section Matcher.

(** [path.Match(pattern, name)] of the host's library, the glob primitive the
    matcher is built on. *)
Variable path_Match : string -> string -> match_result.

(** The loop [for name != ""] of [MatchGlobParents], once the anchor has
    been read off the pattern. *)
Equations? MatchGlobParents_loop (pattern : string) (anchor : bool) (name : string)
  : match_result by wf (String.length name) lt :=
  MatchGlobParents_loop pattern anchor name with String.string_dec name EmptyString => {
    | left _ => (false, None);
    | right _ =>
        (* test against the full path *)
        if settled (path_Match pattern name) then path_Match pattern name
        else
          (* split it *)
          if negb anchor && settled (path_Match pattern (snd (Go.Split name)))
          then path_Match pattern (snd (Go.Split name)) (* the filename *)
          else
            (* continue with the parent *)
            MatchGlobParents_loop pattern anchor (Go.TrimRight (fst (Go.Split name)) "/") }.
Proof.
  clear MatchGlobParents_loop.
  apply Go.parent_shorter. assumption.
Qed.

(** [MatchGlobParents] is like [path.Match], but will match if any component
    matches with optional anchoring. *)
Definition MatchGlobParents (pattern name : string) : match_result :=
  if Go.HasPrefix pattern "/"
  then MatchGlobParents_loop (Go.tail pattern) true name
  else MatchGlobParents_loop pattern false name.

End Matcher.

(** The loop [for n := b / unit; n >= unit; n /= unit] of [FormatBytesSI],
    carrying [div] and [exp]. *)
Equations? FormatBytesSI_loop (n div : Z) (exp : nat) : Z * nat
  by wf (Z.to_nat (Z.log2 n)) lt :=
  FormatBytesSI_loop n div exp with Z_ge_dec n 1000 => {
    | left _ => FormatBytesSI_loop (n / 1000) (Go.wrap_int64 (div * 1000)) (S exp);
    | right _ => (div, exp) }.
Proof.
  assert (Z.log2 (n / 1000) < Z.log2 n);
    [|pose proof (Z.log2_nonneg (n / 1000)); lia].
  assert (0 < n / 1000) by (apply Z.div_str_pos; lia).
  apply Z.log2_lt_pow2; [lia|].
  pose proof (Z.log2_spec n ltac:(lia)) as [_ Hhi].
  pose proof (Z.log2_nonneg n).
  replace (Z.succ (Z.log2 n)) with (Z.log2 n + 1) in Hhi by lia.
  rewrite Z.pow_add_r in Hhi by lia.
  apply Z.div_lt_upper_bound; lia.
Qed.

(** [FormatBytesSI] formats the provided quantity with SI prefixes; the
    constant [unit] is 1000. [None] is the run-time panic of an index out of
    range on ["kMGTPE"]. *)
Definition FormatBytesSI (b : Z) : option string :=
  let neg := b <? 0 in
  let b := if b <? 0 then Go.wrap_int64 (b * -1) else b in
  if b <? 1000 then Some (Go.fmt_d b +:+ " B")
  else
    let '(div, exp) := FormatBytesSI_loop (b / 1000) 1000 0 in
    match Go.index "kMGTPE" exp with
    | None => None
    | Some c =>
        let q := Go.fmt_1f (Go.float64_div (Go.float64_of_int b) (Go.float64_of_int div)) in
        if neg then Some ("-" +:+ q +:+ " " +:+ Go.fmt_c c +:+ "B")
        else Some (q +:+ " " +:+ Go.fmt_c c +:+ "B")
    end.

End internal.

(** ** [cmd/tf2-vpkunpack/main.go]: the extraction loop *)

Module main.
Import Go internal.

(** [tf2vpk.ValvePakChunk] and [tf2vpk.ValvePakFile], as far as [main] reads
    them; [UncompressedSize] is a [uint64]. *)
Record ValvePakChunk : Type := { UncompressedSize : Z }.
Record ValvePakFile : Type := { Path : string; Chunk : list ValvePakChunk }.

(** *** The world the program runs in *)

(** A file system maps a path to a directory or to a regular file with its
    bytes. *)
Inductive node : Type :=
  | Directory
  | Regular (data : string).

Record world : Type := {
  fs : gmap string node;
  stdout : list string;   (* what was written to os.Stdout, in order *)
  stderr : list string;   (* what was written to os.Stderr, in order *)
  random : nat            (* the state of the temporary-name generator *)
}.

Definition with_fs (m : gmap string node) (w : world) : world :=
  {| fs := m; stdout := stdout w; stderr := stderr w; random := random w |}.

(** The calls of the loop that the host may fail. *)
Inductive call : Type :=
  | CallMkdirAll (path : string)
  | CallCreateTemp (dir : string)
  | CallOpenFileParallel (path : string)
  | CallCopy (path : string)
  | CallClose (name : string)
  | CallRemove (name : string)
  | CallRename (oldpath newpath : string).

(** The [error] values of the host, by kind. *)
Inductive os_error : Type :=
  | IOError
  | NotExist
  | Exist
  | NotDirectory
  | IsDirectory.

(** The verb [%v] for an [error]. *)
Definition fmt_v (e : os_error) : string :=
  match e with
  | IOError => "input/output error"
  | NotExist => "no such file or directory"
  | Exist => "file exists"
  | NotDirectory => "not a directory"
  | IsDirectory => "is a directory"
  end.

(** What lies outside the program: the glob primitive [path.Match], the calls
    that fail for a reason of the host (a full disk, a damaged archive), and
    the bytes the archive reader yields for an entry. *)
Record host : Type := {
  path_Match : string -> string -> match_result;
  fault : call -> bool;
  payload : ValvePakFile -> string
}.

(** The command line: [--exclude], [--include], [--threads] and the output
    path [argv[0]]. *)
Record flags : Type := {
  Exclude : list string;
  Include : list string;
  Threads : Z;
  vpkOut : string
}.

(** *** Statements with effects: a state over the world that [os.Exit] or a
    panic leaves early *)

Inductive result (A : Type) : Type :=
  | Ok (a : A)
  | Exit (code : Z)
  | Panic.
Arguments Ok {A} a.
Arguments Exit {A} code.
Arguments Panic {A}.

Definition M (A : Type) : Type := world -> result A * world.

Definition ret {A : Type} (a : A) : M A := fun w => (Ok a, w).

Definition bind {A B : Type} (m : M A) (k : A -> M B) : M B :=
  fun w =>
    match m w with
    | (Ok a, w') => k a w'
    | (Exit code, w') => (Exit code, w')
    | (Panic, w') => (Panic, w')
    end.

Notation "x <- m ;; k" := (bind m (fun x => k))
  (at level 100, m at next level, k at level 200, only parsing).
Notation "m ;; k" := (bind m (fun _ => k))
  (at level 100, k at level 200, only parsing).

(** [os.Exit(code)]. *)
Definition os_Exit {A : Type} (code : Z) : M A := fun w => (Exit code, w).

(** A value that a panic may stand for. *)
Definition or_panic {A : Type} (o : option A) : M A :=
  fun w => match o with Some a => (Ok a, w) | None => (Panic, w) end.

(** [fmt.Printf] and [fmt.Fprintf(os.Stderr, ...)], the text already
    formatted. *)
Definition Printf (text : string) : M unit :=
  fun w => (Ok tt, {| fs := fs w; stdout := stdout w ++ [text];
                      stderr := stderr w; random := random w |}).
Definition Fprintf_Stderr (text : string) : M unit :=
  fun w => (Ok tt, {| fs := fs w; stdout := stdout w;
                      stderr := stderr w ++ [text]; random := random w |}).

(** The newline and the double quote. *)
Definition nl : string := String (Ascii.ascii_of_nat 10) EmptyString.
Definition quote : string := String (Ascii.ascii_of_nat 34) EmptyString.

(** The verb [%q] on a string of printable bytes without quote or backslash. *)
Definition fmt_q (s : string) : string := quote +:+ s +:+ quote.

(** *** The host's file operations *)

(** [filepath.Join(dir, name)] and [filepath.FromSlash(p)] on a host whose
    separator is the slash, for operands that are clean already: there the
    cleaning [filepath.Join] below is this concatenation
    ([FilepathFacts.Join_clean]). *)
Definition Join (dir name : string) : string := dir +:+ "/" +:+ name.
Definition FromSlash (p : string) : string := p.

(** [filepath.Dir(p)]: all but the last element of a clean path. *)
Definition Dir (p : string) : string :=
  match TrimRight (fst (Split p)) "/" with
  | EmptyString => if String.eqb (fst (Split p)) EmptyString then "." else "/"
  | d => d
  end.

(** The path and its ancestors, the shortest first: the part before each
    slash, then the whole. [seen] is what was read so far. *)
Fixpoint dir_prefixes (seen p : string) : list string :=
  match p with
  | EmptyString => [seen]
  | String c rest =>
      (if Ascii.eqb c "/" && negb (String.eqb seen EmptyString) then [seen] else [])
      ++ dir_prefixes (seen +:+ String c EmptyString) rest
  end.

(** The directories [os.MkdirAll] makes, one ancestor after the other; it
    stops at an ancestor that is a regular file. *)
Fixpoint mkdirs (prefixes : list string) (m : gmap string node)
  : option os_error * gmap string node :=
  match prefixes with
  | [] => (None, m)
  | p :: rest =>
      match m !! p with
      | Some (Regular _) => (Some NotDirectory, m)
      | Some Directory => mkdirs rest m
      | None => mkdirs rest (<[p := Directory]> m)
      end
  end.

Section Host.

Variable h : host.

(** [os.MkdirAll(path, 0777)]. *)
Definition os_MkdirAll (path : string) : M (option os_error) :=
  fun w =>
    if fault h (CallMkdirAll path) then (Ok (Some IOError), w)
    else let '(err, m) := mkdirs (dir_prefixes EmptyString path) (fs w) in
         (Ok err, with_fs m w).

(** The loop of [os.CreateTemp]: a name is tried, and created only where
    nothing exists under it ([O_EXCL]). *)
Fixpoint CreateTemp_try (tries : nat) (dir prefix : string) (w : world)
  : (string * option os_error) * world :=
  match tries with
  | O => ((EmptyString, Some Exist), w)
  | S tries' =>
      let name := Join dir (prefix +:+ fmt_d (Z.of_nat (random w))) in
      let w' := {| fs := fs w; stdout := stdout w; stderr := stderr w;
                   random := S (random w) |} in
      match fs w !! name with
      | Some _ => CreateTemp_try tries' dir prefix w'
      | None => ((name, None), with_fs (<[name := Regular EmptyString]> (fs w)) w')
      end
  end.

(** [os.CreateTemp(dir, prefix + "*")]: the name of the new file, or an
    error; at most 10000 names are tried. *)
Definition os_CreateTemp (dir prefix : string) : M (string * option os_error) :=
  fun w =>
    if fault h (CallCreateTemp dir) then (Ok (EmptyString, Some IOError), w)
    else
      match fs w !! dir with
      | Some Directory =>
          let '(r, w') := CreateTemp_try (100 * 100) dir prefix w in (Ok r, w')
      | Some (Regular _) => (Ok (EmptyString, Some NotDirectory), w)
      | None => (Ok (EmptyString, Some NotExist), w)
      end.

(** [r.OpenFileParallel(f, threads)]: a reader of the bytes of the entry, or
    an error. *)
Definition OpenFileParallel (f : ValvePakFile) (threads : Z)
  : M (string * option os_error) :=
  fun w =>
    if fault h (CallOpenFileParallel (Path f)) then (Ok (EmptyString, Some IOError), w)
    else (Ok (payload h f, None), w).

(** [io.Copy(tf, fr)]: the bytes of the reader written to the open file. *)
Definition io_Copy (f : ValvePakFile) (tf : string) (fr : string) : M (option os_error) :=
  fun w =>
    if fault h (CallCopy (Path f)) then (Ok (Some IOError), w)
    else (Ok None, with_fs (<[tf := Regular fr]> (fs w)) w).

(** [tf.Close()]. *)
Definition Close (tf : string) : M (option os_error) :=
  fun w => if fault h (CallClose tf) then (Ok (Some IOError), w) else (Ok None, w).

(** [os.Remove(name)] of a file. *)
Definition os_Remove (name : string) : M (option os_error) :=
  fun w =>
    if fault h (CallRemove name) then (Ok (Some IOError), w)
    else
      match fs w !! name with
      | Some (Regular _) => (Ok None, with_fs (delete name (fs w)) w)
      | Some Directory => (Ok (Some IsDirectory), w)
      | None => (Ok (Some NotExist), w)
      end.

(** [os.Rename(oldpath, newpath)] of a file: if [newpath] already exists and
    is not a directory, Rename replaces it. *)
Definition os_Rename (oldpath newpath : string) : M (option os_error) :=
  fun w =>
    if fault h (CallRename oldpath newpath) then (Ok (Some IOError), w)
    else
      match fs w !! oldpath with
      | None => (Ok (Some NotExist), w)
      | Some n =>
          match fs w !! newpath with
          | Some Directory => (Ok (Some Exist), w)
          | _ => (Ok None, with_fs (<[newpath := n]> (delete oldpath (fs w))) w)
          end
      end.

(** *** The loop over [r.Root.File] *)

Variable opts : flags.

(** Lines 157-164 and 165-172: one pass over a pattern list; a match sets
    [excluded] to [on_match], an error of the matcher ends the run. *)
Fixpoint process_patterns (what : string) (on_match : bool) (patterns : list string)
    (f : ValvePakFile) (excluded : bool) : M bool :=
  match patterns with
  | [] => ret excluded
  | x :: rest =>
      match MatchGlobParents (path_Match h) x (Path f) with
      | (_, Some err) =>
          Fprintf_Stderr ("error: process " +:+ what +:+ ": match " +:+ fmt_q (Path f)
                          +:+ " against glob " +:+ fmt_q x +:+ ": " +:+ Error err +:+ nl) ;;
          os_Exit 1
      | (m, None) =>
          process_patterns what on_match rest f (if m then on_match else excluded)
      end
  end.

(** Lines 156-172: the decision whether the entry is excluded. *)
Definition filter_entry (f : ValvePakFile) : M bool :=
  excluded <- process_patterns "excludes" true (Exclude opts) f false ;;
  process_patterns "includes" false (Include opts) f excluded.

(** The progress prefix [[%4d/%4d] %s]. *)
Definition progress (i total : nat) (f : ValvePakFile) : string :=
  "[" +:+ fmt_4d (Z.of_nat i + 1) +:+ "/" +:+ fmt_4d (Z.of_nat total) +:+ "] " +:+ Path f.

(** Lines 179-182: the sum of the chunk sizes, in [uint64]. *)
Definition uncompressed_size (f : ValvePakFile) : Z :=
  fold_left (fun u c => wrap_uint64 (u + UncompressedSize c)) (Chunk f) 0.

(** Lines 187-190. *)
Definition make_parent (outPath : string) : M unit :=
  err <- os_MkdirAll (Dir outPath) ;;
  match err with
  | Some e =>
      Fprintf_Stderr ("error: create " +:+ fmt_q outPath +:+ ": " +:+ fmt_v e +:+ nl) ;;
      os_Exit 1
  | None => ret tt
  end.

(** Lines 192-196; the deferred [tf.Close()] of line 197 would run when
    [main] returns. *)
Definition create_temp : M string :=
  r <- os_CreateTemp (vpkOut opts) ".vpk" ;;
  match snd r with
  | Some e =>
      Fprintf_Stderr ("error: create temp file: " +:+ fmt_v e +:+ nl) ;;
      os_Exit 1
  | None => ret (fst r)
  end.

(** Lines 199-204. *)
Definition open_entry (f : ValvePakFile) (tf : string) : M string :=
  r <- OpenFileParallel f (Threads opts) ;;
  match snd r with
  | Some e =>
      os_Remove tf ;;
      Fprintf_Stderr ("error: read vpk file " +:+ fmt_q (Path f) +:+ ": " +:+ fmt_v e +:+ nl) ;;
      os_Exit 1
  | None => ret (fst r)
  end.

(** Lines 206-210. *)
Definition copy_entry (f : ValvePakFile) (tf fr : string) : M unit :=
  err <- io_Copy f tf fr ;;
  match err with
  | Some e =>
      os_Remove tf ;;
      Fprintf_Stderr ("error: extract vpk file " +:+ fmt_q (Path f) +:+ ": " +:+ fmt_v e +:+ nl) ;;
      os_Exit 1
  | None => ret tt
  end.

(** Lines 212-216. *)
Definition close_temp (f : ValvePakFile) (tf : string) : M unit :=
  err <- Close tf ;;
  match err with
  | Some e =>
      os_Remove tf ;;
      Fprintf_Stderr ("error: extract vpk file " +:+ fmt_q (Path f) +:+ ": " +:+ fmt_v e +:+ nl) ;;
      os_Exit 1
  | None => ret tt
  end.

(** Lines 218-221. *)
Definition rename_temp (f : ValvePakFile) (tf outPath : string) : M unit :=
  err <- os_Rename tf outPath ;;
  match err with
  | Some e =>
      Fprintf_Stderr ("error: extract vpk file " +:+ fmt_q (Path f)
                      +:+ ": rename temp file: " +:+ fmt_v e +:+ nl) ;;
      os_Exit 1
  | None => ret tt
  end.

(** Lines 185-221: the entry written to its place under the output path. *)
Definition store_entry (f : ValvePakFile) : M unit :=
  let outPath := Join (vpkOut opts) (FromSlash (Path f)) in
  make_parent outPath ;;
  tf <- create_temp ;;
  fr <- open_entry f tf ;;
  copy_entry f tf fr ;;
  close_temp f tf ;;
  rename_temp f tf outPath.

(** Lines 156-223: the body of the loop for the entry of index [i]; the
    result is [excludedCount] after it. *)
Definition extract_entry (i total : nat) (f : ValvePakFile) (excludedCount : nat) : M nat :=
  excluded <- filter_entry f ;;
  if excluded then
    Printf (progress i total f +:+ " (excluded)" +:+ nl) ;;
    ret (S excludedCount)
  else
    size <- or_panic (FormatBytesSI (wrap_int64 (uncompressed_size f))) ;;
    Printf (progress i total f +:+ " (" +:+ size +:+ ")" +:+ nl) ;;
    store_entry f ;;
    ret excludedCount.

(** Lines 155-224: [for i, f := range r.Root.File]. *)
Fixpoint extract_entries (i total : nat) (files : list ValvePakFile) (excludedCount : nat)
  : M nat :=
  match files with
  | [] => ret excludedCount
  | f :: rest =>
      n <- extract_entry i total f excludedCount ;;
      extract_entries (S i) total rest n
  end.

(** Lines 153-233: the loop from a count of zero, then the last line. *)
Definition unpack (files : list ValvePakFile) : M unit :=
  excludedCount <- extract_entries 0 (length files) files 0 ;;
  Printf nl ;;
  if Nat.eqb excludedCount 0 then Printf ("success" +:+ nl)
  else Printf ("success (" +:+ fmt_d (Z.of_nat excludedCount)
               +:+ " files excluded by command-line filter)" +:+ nl).

End Host.

End main.

(** ** [path/filepath] on a host whose separator is the slash *)

Module filepath.

(** The elements of a path: what stands between its slashes. [cur] is the
    element being read. *)
Fixpoint elements (cur p : string) : list string :=
  match p with
  | EmptyString => [cur]
  | String c rest =>
      if Ascii.eqb c "/" then cur :: elements EmptyString rest
      else elements (cur +:+ String c EmptyString) rest
  end.

(** One element read by [Clean]; [kept] holds the elements kept so far, the
    last one first. Empty elements and [.] are dropped, [..] drops the element
    before it, stays at the start of a relative path and is dropped at the
    root. *)
Definition clean_step (rooted : bool) (kept : list string) (e : string) : list string :=
  if String.eqb e EmptyString || String.eqb e "." then kept
  else if String.eqb e ".." then
    match kept with
    | top :: below => if String.eqb top ".." then e :: kept else below
    | [] => if rooted then [] else [e]
    end
  else e :: kept.

(** [filepath.Clean(p)]: the shortest path name equivalent to [p]. *)
Definition Clean (p : string) : string :=
  let rooted := Go.HasPrefix p "/" in
  let kept := rev (fold_left (clean_step rooted) (elements EmptyString p) []) in
  match (if rooted then "/" else "") +:+ String.concat "/" kept with
  | EmptyString => "."
  | cleaned => cleaned
  end.

(** [filepath.Join(dir, name)]: the elements that are not empty, joined by
    slashes and cleaned; empty when both are empty. *)
Definition Join (dir name : string) : string :=
  match dir, name with
  | EmptyString, EmptyString => EmptyString
  | EmptyString, _ => Clean name
  | _, _ => Clean (dir +:+ "/" +:+ name)
  end.

(** An element that [Clean] keeps as it is: a name, neither empty nor [.]
    nor [..]. *)
Definition is_name (e : string) : bool :=
  negb (String.eqb e EmptyString) && negb (String.eqb e ".")
  && negb (String.eqb e "..").

(** A clean relative path: one name or more, separated by single slashes. *)
Definition clean_relative (p : string) : bool :=
  forallb is_name (elements EmptyString p).

(** A clean output path: a clean relative path, or a slash and one. *)
Definition clean_output (p : string) : bool :=
  clean_relative (if Go.HasPrefix p "/" then Go.tail p else p).

End filepath.

(** ** [cmd/tf2-vpkunpack/main.go]: the output directory (lines 122-151) *)

Module output.
Import Go internal main.

(** The calls of these lines that the host may fail. *)
Inductive call : Type :=
  | CallMkdir (path : string)
  | CallReadDir (path : string)
  | CallWriteFile (name : string).

(** What these lines take from outside: the calls that fail for a reason of
    the host, and from the [vpkutil] package the test [vpkIgnore.Match] and
    the texts [vpkFlags.String()] and [vpkIgnore.String()] of the two
    manifests. *)
Record setup : Type := {
  fault : call -> bool;
  vpkIgnore_Match : string -> bool;
  vpkFlags_String : string;
  vpkIgnore_String : string
}.

(** [s] without the prefix [prefix], when it starts with it. *)
Fixpoint strip_prefix (prefix s : string) : option string :=
  match prefix, s with
  | EmptyString, _ => Some s
  | String a prefix', String b s' =>
      if Ascii.eqb a b then strip_prefix prefix' s' else None
  | String _ _, EmptyString => None
  end.

(** The name of [key] within the directory [dir], when [key] lies directly
    in it. *)
Definition child_name (dir key : string) : option string :=
  match strip_prefix (dir +:+ "/") key with
  | Some name =>
      if negb (String.eqb name EmptyString) && negb (has_byte "/" name)
      then Some name else None
  | None => None
  end.

(** The names in a directory, sorted by filename. *)
Definition dir_names (dir : string) (m : gmap string node) : list string :=
  merge_sort String.le (omap (child_name dir) (map fst (map_to_list m))).

(** Is the directory a new path is made in there? A path without a slash
    lies in the working directory. *)
Definition parent_error (path : string) (m : gmap string node) : option os_error :=
  if String.eqb (Dir path) "." || String.eqb (Dir path) "/" then None
  else match m !! Dir path with
       | Some Directory => None
       | Some (Regular _) => Some NotDirectory
       | None => Some NotExist
       end.

Section Setup.

Variable s : setup.

(** [os.Mkdir(path, 0777)]. *)
Definition os_Mkdir (path : string) : M (option os_error) :=
  fun w =>
    if fault s (CallMkdir path) then (Ok (Some IOError), w)
    else
      match fs w !! path with
      | Some _ => (Ok (Some Exist), w)
      | None =>
          match parent_error path (fs w) with
          | Some e => (Ok (Some e), w)
          | None => (Ok None, with_fs (<[path := Directory]> (fs w)) w)
          end
      end.

(** [os.ReadDir(path)]: the names of the directory entries, sorted. *)
Definition os_ReadDir (path : string) : M (list string * option os_error) :=
  fun w =>
    if fault s (CallReadDir path) then (Ok ([], Some IOError), w)
    else
      match fs w !! path with
      | Some Directory => (Ok (dir_names path (fs w), None), w)
      | Some (Regular _) => (Ok ([], Some NotDirectory), w)
      | None => (Ok ([], Some NotExist), w)
      end.

(** [os.WriteFile(name, data, 0666)]: the file is created, or truncated and
    written. *)
Definition os_WriteFile (name data : string) : M (option os_error) :=
  fun w =>
    if fault s (CallWriteFile name) then (Ok (Some IOError), w)
    else
      match fs w !! name with
      | Some Directory => (Ok (Some IsDirectory), w)
      | _ =>
          match parent_error name (fs w) with
          | Some e => (Ok (Some e), w)
          | None => (Ok None, with_fs (<[name := Regular data]> (fs w)) w)
          end
      end.

(** Lines 131-136: the first entry that [vpkIgnore] does not match ends the
    run. *)
Fixpoint check_entries (dis : list string) : M unit :=
  match dis with
  | [] => ret tt
  | name :: rest =>
      if negb (vpkIgnore_Match s name) then
        Fprintf_Stderr ("error: output directory must not exist or be empty "
                        +:+ "(other than ignored files), found " +:+ fmt_q name +:+ nl) ;;
        os_Exit 1
      else check_entries rest
  end.

(** Lines 122-137: the output directory is made, or is there already and
    holds ignored entries only. *)
Definition create_output (vpkOut : string) : M unit :=
  Printf ("... creating output directory" +:+ nl) ;;
  err <- os_Mkdir vpkOut ;;
  (match err with
   | Some Exist | None => ret tt
   | Some e =>
       Fprintf_Stderr ("error: create output directory: " +:+ fmt_v e +:+ nl) ;;
       os_Exit 1
   end) ;;
  r <- os_ReadDir vpkOut ;;
  match snd r with
  | Some e =>
      Fprintf_Stderr ("error: list output directory: " +:+ fmt_v e +:+ nl) ;;
      os_Exit 1
  | None => check_entries (fst r)
  end.

(** Lines 139-143 and 145-149: a manifest is saved. *)
Definition save_manifest (vpkOut name text : string) : M unit :=
  Printf ("... saving " +:+ name +:+ nl) ;;
  err <- os_WriteFile (Join vpkOut name) text ;;
  match err with
  | Some e =>
      Fprintf_Stderr ("error: write " +:+ name +:+ ": " +:+ fmt_v e +:+ nl) ;;
      os_Exit 1
  | None => ret tt
  end.

(** Lines 122-151. *)
Definition prepare_output (vpkOut : string) : M unit :=
  create_output vpkOut ;;
  save_manifest vpkOut ".vpkflags" (vpkFlags_String s) ;;
  save_manifest vpkOut ".vpkignore" (vpkIgnore_String s) ;;
  Printf nl.

(** Lines 122-233, for an archive that was opened: the output directory, then
    the loop. *)
Definition run (h : host) (opts : flags) (files : list ValvePakFile) : M unit :=
  prepare_output (vpkOut opts) ;;
  unpack h opts files.

End Setup.

End output.

(** ** The matcher as the design states it *)

Module Design.

(** A path is its segments joined by slashes. *)
Definition join (segs : list string) : string := String.concat "/" segs.

(** A path segment: not empty, and without a slash. *)
Definition segment (s : string) : Prop :=
  s <> EmptyString /\ Go.has_byte "/" s = false.

(** The ancestor-prefix paths of a path, the path itself included: the first
    segment, the first two joined, and so on. *)
Definition ancestor_prefixes (segs : list string) : list string :=
  map (fun k => join (take k segs)) (seq 1 (length segs)).

Section Design.

Variable path_Match : string -> string -> internal.match_result.

(** The glob test of a pattern on one name. *)
Definition glob_matches (pattern name : string) : bool := fst (path_Match pattern name).

(** A well-formed pattern: the glob primitive reports no error for it. *)
Definition well_formed (pattern : string) : Prop :=
  forall name, snd (path_Match pattern name) = None.

(** An unanchored pattern matches a path when it matches an ancestor-prefix
    path, or the base name of the path or of an ancestor directory. *)
Definition matches_unanchored (pattern : string) (segs : list string) : bool :=
  existsb (glob_matches pattern) (ancestor_prefixes segs)
  || existsb (glob_matches pattern) segs.

(** An anchored pattern matches a path when it matches an ancestor-prefix
    path. *)
Definition matches_anchored (pattern : string) (segs : list string) : bool :=
  existsb (glob_matches pattern) (ancestor_prefixes segs).

(** The glob of a filter pattern: the pattern without the leading slash that
    anchors it. *)
Definition glob_of (filter : string) : string :=
  if Go.HasPrefix filter "/" then Go.tail filter else filter.

(** A filter pattern is well-formed when its glob is. *)
Definition well_formed_filter (filter : string) : Prop := well_formed (glob_of filter).

(** [Match]: does the filter pattern match the entry path? *)
Definition filter_matches (path filter : string) : bool :=
  fst (internal.MatchGlobParents path_Match filter path).

(** The net effect of the filter chain: excluded when at least one exclude
    pattern matches and no include pattern does. *)
Definition is_excluded (excludes includes : list string) (path : string) : bool :=
  existsb (filter_matches path) excludes && negb (existsb (filter_matches path) includes).

End Design.

(** The total uncompressed size of an entry: the sum of the sizes of its
    chunks, without wrap-around. *)
Definition total_size (chunks : list main.ValvePakChunk) : Z :=
  fold_right (fun c sum => main.UncompressedSize c + sum) 0 chunks.

End Design.

(** ** A glob primitive to run the matcher on: stars, question marks, escapes
    and literal bytes, in the style of [path.Match] *)

Module Glob.

(** A malformed pattern: it ends in a lone backslash, or opens a character
    class, which this primitive does not read. *)
Fixpoint bad_pattern (pattern : string) : bool :=
  match pattern with
  | EmptyString => false
  | String "\" EmptyString => true
  | String "\" (String _ rest) => bad_pattern rest
  | String "[" _ => true
  | String _ rest => bad_pattern rest
  end.

(** Does the pattern match the whole name? A star and a question mark never
    match a slash. *)
Fixpoint wild (pattern name : string) : bool :=
  match pattern with
  | EmptyString => match name with EmptyString => true | _ => false end
  | String "*" rest =>
      (fix star (name : string) : bool :=
         wild rest name
         || match name with
            | EmptyString => false
            | String c name' => negb (Ascii.eqb c "/") && star name'
            end) name
  | String "?" rest =>
      match name with
      | EmptyString => false
      | String c name' => negb (Ascii.eqb c "/") && wild rest name'
      end
  | String "\" (String c rest) =>
      match name with
      | EmptyString => false
      | String d name' => Ascii.eqb c d && wild rest name'
      end
  | String c rest =>
      match name with
      | EmptyString => false
      | String d name' => Ascii.eqb c d && wild rest name'
      end
  end.

Definition Match (pattern name : string) : internal.match_result :=
  if bad_pattern pattern then (false, Some internal.ErrBadPattern)
  else (wild pattern name, None).

End Glob.

(** ** Runs to evaluate the loop on *)

Module Scenario.
Import main.

(** An entry of two chunks, 1500 and 500 bytes. *)
Definition entry (path : string) : ValvePakFile :=
  {| Path := path;
     Chunk := [ {| UncompressedSize := 1500 |}; {| UncompressedSize := 500 |} ] |}.

(** A host on which no call fails by itself. *)
Definition sound : host :=
  {| path_Match := Glob.Match;
     fault := fun _ => false;
     payload := fun f => "data of " +:+ Path f |}.

(** A host on which every rename fails. *)
Definition rename_fails : host :=
  {| path_Match := Glob.Match;
     fault := fun c => match c with CallRename _ _ => true | _ => false end;
     payload := fun f => "data of " +:+ Path f |}.

(** A host on which the archive reader fails to open an entry. *)
Definition reader_fails : host :=
  {| path_Match := Glob.Match;
     fault := fun c => match c with CallOpenFileParallel _ => true | _ => false end;
     payload := fun f => "data of " +:+ Path f |}.

(** No filter, and the filter of the design's round-trip example. *)
Definition no_filter : flags :=
  {| Exclude := []; Include := []; Threads := 4; vpkOut := "out" |}.
Definition secrets : flags :=
  {| Exclude := ["/secrets"]; Include := ["/secrets/public.txt"];
     Threads := 4; vpkOut := "out" |}.

(** A filter with a pattern that [Glob.Match] rejects. *)
Definition broken : flags :=
  {| Exclude := ["*.tmp"; "["]; Include := []; Threads := 4; vpkOut := "out" |}.

(** An archive of three entries, two of them under [secrets]. *)
Definition archive : list ValvePakFile :=
  [entry "readme.txt"; entry "secrets/public.txt"; entry "secrets/key.pem"].

(** A setup on which no call fails and [vpkIgnore] matches the names that
    start with a dot. *)
Definition dot_ignored : output.setup :=
  {| output.fault := fun _ => false;
     output.vpkIgnore_Match := fun name => Go.HasPrefix name ".";
     output.vpkFlags_String := "flags";
     output.vpkIgnore_String := "ignore" |}.

(** The output directory, empty. *)
Definition empty_out : world :=
  {| fs := {[ "out" := Directory ]}; stdout := []; stderr := []; random := 0 |}.

(** The empty output directory with a temporary file just created. *)
Definition temp_created : world :=
  {| fs := <[ "out/.vpk0" := Regular EmptyString ]> {[ "out" := Directory ]};
     stdout := []; stderr := []; random := 1 |}.

(** The output directory with a file in the place of the entry [a.txt]. *)
Definition occupied_out : world :=
  {| fs := <[ "out/a.txt" := Regular "old" ]> {[ "out" := Directory ]};
     stdout := []; stderr := []; random := 0 |}.

(** A world without the output directory. *)
Definition nothing : world :=
  {| fs := ∅; stdout := []; stderr := []; random := 0 |}.

(** The output directory with its two manifests saved, and the temporary
    file of an entry named [.vpkflags] written and closed. *)
Definition manifest_before_rename : world :=
  {| fs := <[ "out/.vpk0" := Regular "data of .vpkflags" ]>
             (<[ "out/.vpkignore" := Regular "ignore" ]>
                (<[ "out/.vpkflags" := Regular "flags" ]> {[ "out" := Directory ]}));
     stdout := []; stderr := []; random := 1 |}.

End Scenario.

(** * Theorems *)

(** ** Strings and paths *)

Module GoFacts.
Import Go.

Lemma append_assoc (a b c : string) : (a +:+ b) +:+ c = a +:+ b +:+ c.
Proof.
  induction a as [|x a IH]; [reflexivity|].
  change (String x ((a +:+ b) +:+ c) = String x (a +:+ b +:+ c)).
  rewrite IH. reflexivity.
Qed.

(** [Split] as its documentation states it: the two parts make up the path,
    the file part has no slash, and the directory part is empty or ends in a
    slash. *)
Lemma Split_spec (p : string) :
  fst (Split p) +:+ snd (Split p) = p
  /\ has_byte "/" (snd (Split p)) = false
  /\ (fst (Split p) = EmptyString \/ exists q, fst (Split p) = q +:+ "/").
Proof.
  induction p as [|c p (IH1 & IH2 & IH3)].
  - repeat split; try reflexivity. left. reflexivity.
  - cbn [Split]. destruct (Split p) as [d f]. cbn [fst snd] in *.
    destruct d as [|d0 d].
    + change (f = p) in IH1. subst f.
      destruct (Ascii.eqb_spec c "/") as [->|Hc]; cbn [fst snd].
      * split; [reflexivity|]. split; [assumption|].
        right. exists EmptyString. reflexivity.
      * split; [reflexivity|]. split; [|left; reflexivity].
        cbn [has_byte]. rewrite IH2, orb_false_r.
        apply Ascii.eqb_neq. congruence.
    + split; [|split; [assumption|]].
      * change (String c (String d0 d +:+ f) = String c p). congruence.
      * right. destruct IH3 as [E|[q Hq]]; [discriminate|].
        exists (String c q). rewrite Hq. reflexivity.
Qed.

Lemma Split_no_slash (b : string) :
  has_byte "/" b = false -> Split b = (EmptyString, b).
Proof.
  induction b as [|c b IH]; [reflexivity|].
  cbn [has_byte Split]. intros H. apply orb_false_iff in H as [Hc Hb].
  rewrite (IH Hb), Ascii.eqb_sym, Hc. reflexivity.
Qed.

Lemma Split_dir_file (d b : string) :
  has_byte "/" b = false -> Split (d +:+ "/" +:+ b) = (d +:+ "/", b).
Proof.
  intros Hb. induction d as [|c d IH].
  - change ("" +:+ "/" +:+ b) with (String "/" b).
    cbn [Split]. rewrite (Split_no_slash b Hb). reflexivity.
  - change (String c d +:+ "/" +:+ b) with (String c (d +:+ "/" +:+ b)).
    cbn [Split]. rewrite IH. destruct d; reflexivity.
Qed.

Lemma TrimRight_slash (s : string) :
  TrimRight (s +:+ "/") "/" = TrimRight s "/".
Proof.
  induction s as [|c s IH]; [reflexivity|].
  change (String c s +:+ "/") with (String c (s +:+ "/")).
  cbn [TrimRight]. rewrite IH. reflexivity.
Qed.

Lemma HasPrefix_slash (s : string) : HasPrefix ("/" +:+ s) "/" = true.
Proof. destruct s; reflexivity. Qed.

(** [TrimRight] as its documentation states it: what it removes is a suffix of
    bytes of the cutset, and what it leaves does not end in such a byte. *)
Lemma TrimRight_spec (s cutset : string) :
  (exists t, s = TrimRight s cutset +:+ t
             /\ forall c, has_byte c t = true -> has_byte c cutset = true)
  /\ (forall u c, TrimRight s cutset = u +:+ String c EmptyString ->
                  has_byte c cutset = false).
Proof.
  induction s as [|a s [[t [Hs Ht]] IH]].
  - split; [exists EmptyString; split; [reflexivity | discriminate]|].
    intros [|x u] c H; discriminate.
  - cbn [TrimRight]. destruct (TrimRight s cutset) as [|b r] eqn:E.
    + change (s = t) in Hs. subst t.
      destruct (has_byte a cutset) eqn:Ha.
      * split.
        -- exists (String a s). split; [reflexivity|].
           intros c Hc. cbn [has_byte] in Hc. apply orb_true_iff in Hc as [Hc|Hc].
           ++ apply Ascii.eqb_eq in Hc. congruence.
           ++ apply Ht. assumption.
        -- intros [|x u] c H; discriminate.
      * split.
        -- exists s. split; [reflexivity | assumption].
        -- intros [|x [|y u]] c H; try discriminate.
           change (String a EmptyString = String c EmptyString) in H. congruence.
    + split.
      * exists t. split; [|assumption].
        change (String a s = String a (String b r +:+ t)). congruence.
      * intros [|x u] c H.
        -- discriminate.
        -- change (String a (String b r) = String x (u +:+ String c EmptyString)) in H.
           injection H as _ H. apply (IH u c). symmetry. symmetry in H. congruence.
Qed.

(** A string that is not empty and does not end in a slash. *)
Definition open_ended (s : string) : Prop :=
  s <> EmptyString /\ TrimRight s "/" = s.

Lemma open_ended_segment (b : string) :
  b <> EmptyString -> has_byte "/" b = false -> open_ended b.
Proof.
  intros Hne Hb. split; [assumption|].
  induction b as [|c b IH]; [congruence|].
  cbn [has_byte] in Hb. apply orb_false_iff in Hb as [Hc Hb].
  cbn [TrimRight]. destruct b as [|c' b].
  - cbn. rewrite Ascii.eqb_sym, Hc. reflexivity.
  - rewrite IH by (congruence || assumption). reflexivity.
Qed.

Lemma open_ended_app (a b : string) : open_ended b -> open_ended (a +:+ b).
Proof.
  intros [Hne Hb]. induction a as [|c a [IHne IH]]; [split; assumption|].
  split; [discriminate|].
  change (String c a +:+ b) with (String c (a +:+ b)).
  cbn [TrimRight]. rewrite IH. destruct (a +:+ b); [congruence|reflexivity].
Qed.

End GoFacts.

(** ** Paths as joined segments *)

Module DesignFacts.
Import Go GoFacts Design.

Lemma join_snoc (init : list string) (b : string) :
  init <> [] -> join (init ++ [b]) = join init +:+ "/" +:+ b.
Proof.
  induction init as [|x init IH]; [congruence|]. intros _.
  destruct init as [|y init].
  - reflexivity.
  - change (join ((x :: y :: init) ++ [b])) with (x +:+ "/" +:+ join ((y :: init) ++ [b])).
    rewrite IH by discriminate.
    change (join (x :: y :: init)) with (x +:+ "/" +:+ join (y :: init)).
    rewrite !append_assoc. reflexivity.
Qed.

Lemma join_open_ended (segs : list string) :
  segs <> [] -> Forall segment segs -> open_ended (join segs).
Proof.
  induction segs as [|b init IH] using rev_ind; [congruence|].
  intros _ H. apply Forall_app in H as [Hinit Hb].
  apply Forall_cons in Hb as [[Hne Hb] _].
  destruct init as [|x init].
  - apply open_ended_segment; assumption.
  - rewrite join_snoc by discriminate.
    apply open_ended_app, open_ended_app, open_ended_segment; assumption.
Qed.

(** One round of the loop on a path with a last segment: the base name is
    the last segment, the next name is the path of the segments before. *)
Lemma Split_join (init : list string) (b : string) :
  Forall segment (init ++ [b]) ->
  snd (Split (join (init ++ [b]))) = b
  /\ TrimRight (fst (Split (join (init ++ [b])))) "/" = join init
  /\ join (init ++ [b]) <> EmptyString.
Proof.
  intros H. pose proof (join_open_ended (init ++ [b])) as Hopen.
  apply Forall_app in H as [Hinit Hb'].
  pose proof Hb' as Hb. apply Forall_cons in Hb as [[Hne Hb] _].
  destruct init as [|x init].
  - change (join ([] ++ [b])) with b. rewrite (Split_no_slash b Hb).
    split; [reflexivity|]. split; [reflexivity | assumption].
  - rewrite join_snoc by discriminate.
    rewrite (Split_dir_file _ b Hb). cbn [fst snd].
    rewrite TrimRight_slash.
    split; [reflexivity|]. split.
    + apply join_open_ended; [discriminate | assumption].
    + destruct (join (x :: init)); discriminate.
Qed.

Lemma ancestor_prefixes_snoc (init : list string) (b : string) :
  ancestor_prefixes (init ++ [b]) = ancestor_prefixes init ++ [join (init ++ [b])].
Proof.
  unfold ancestor_prefixes. rewrite length_app. cbn [length].
  rewrite Nat.add_1_r, seq_S, map_app. cbn [map]. f_equal.
  - apply map_ext_in. intros k Hk. apply in_seq in Hk.
    rewrite take_app_le by lia. reflexivity.
  - rewrite take_ge by (rewrite length_app; cbn; lia). reflexivity.
Qed.

End DesignFacts.

(** ** [MatchGlobParents] *)

Module MatcherFacts.
Import Go internal Design DesignFacts.

Section Matcher.

Variable path_Match : string -> string -> match_result.

Lemma glob_loop_empty (pattern : string) (anchor : bool) :
  MatchGlobParents_loop path_Match pattern anchor EmptyString = (false, None).
Proof. simp MatchGlobParents_loop. reflexivity. Qed.

(** The loop body on a name that is not empty. *)
Lemma glob_loop_step (pattern : string) (anchor : bool) (name : string) :
  name <> EmptyString ->
  MatchGlobParents_loop path_Match pattern anchor name =
    if settled (path_Match pattern name) then path_Match pattern name
    else if negb anchor && settled (path_Match pattern (snd (Split name)))
         then path_Match pattern (snd (Split name))
         else MatchGlobParents_loop path_Match pattern anchor
                (TrimRight (fst (Split name)) "/").
Proof.
  intros Hne. rewrite MatchGlobParents_loop_equation_1.
  destruct (String.string_dec name EmptyString); [congruence|reflexivity].
Qed.

(** The loop on a path of segments: the full name, the last segment, then
    the path of the segments before. *)
Lemma glob_loop_snoc (pattern : string) (anchor : bool) (init : list string) (b : string) :
  Forall segment (init ++ [b]) ->
  MatchGlobParents_loop path_Match pattern anchor (join (init ++ [b])) =
    if settled (path_Match pattern (join (init ++ [b])))
    then path_Match pattern (join (init ++ [b]))
    else if negb anchor && settled (path_Match pattern b)
         then path_Match pattern b
         else MatchGlobParents_loop path_Match pattern anchor (join init).
Proof.
  intros H. destruct (Split_join init b H) as (Hb & Hp & Hne).
  rewrite glob_loop_step by assumption. rewrite Hb, Hp. reflexivity.
Qed.

Lemma well_formed_result (pattern name : string) :
  well_formed path_Match pattern ->
  path_Match pattern name = (glob_matches path_Match pattern name, None)
  /\ settled (path_Match pattern name) = glob_matches path_Match pattern name.
Proof.
  intros Hwf. specialize (Hwf name). unfold glob_matches, settled.
  destruct (path_Match pattern name) as [m e]. simpl in *. subst e.
  split; [reflexivity | apply orb_false_r].
Qed.

(** The loop of a well-formed pattern computes the design's disjunction. *)
Lemma loop_design (pattern : string) (anchor : bool) (segs : list string) :
  well_formed path_Match pattern ->
  Forall segment segs ->
  MatchGlobParents_loop path_Match pattern anchor (join segs) =
    (existsb (glob_matches path_Match pattern) (ancestor_prefixes segs)
     || negb anchor && existsb (glob_matches path_Match pattern) segs, None).
Proof.
  intros Hwf. induction segs as [|b init IH] using rev_ind; intros H.
  - cbn. rewrite glob_loop_empty, andb_false_r. reflexivity.
  - rewrite glob_loop_snoc by assumption.
    apply Forall_app in H as [Hinit _]. rewrite (IH Hinit).
    rewrite ancestor_prefixes_snoc, !existsb_app. cbn [existsb].
    destruct (well_formed_result pattern (join (init ++ [b])) Hwf) as [-> ->].
    destruct (well_formed_result pattern b Hwf) as [-> ->].
    destruct (glob_matches path_Match pattern (join (init ++ [b]))),
      (glob_matches path_Match pattern b), anchor,
      (existsb (glob_matches path_Match pattern) (ancestor_prefixes init)),
      (existsb (glob_matches path_Match pattern) init); reflexivity.
Qed.

End Matcher.

(** An anchored loop asks the glob primitive about ancestor-prefix paths
    only: two primitives that agree there give the same result. *)
Lemma loop_anchored_queries (M M' : string -> string -> match_result)
    (pattern : string) (segs : list string) :
  Forall segment segs ->
  (forall q, In q (ancestor_prefixes segs) -> M' pattern q = M pattern q) ->
  MatchGlobParents_loop M' pattern true (join segs) =
  MatchGlobParents_loop M pattern true (join segs).
Proof.
  induction segs as [|b init IH] using rev_ind; intros H Hq.
  - cbn. rewrite !glob_loop_empty. reflexivity.
  - rewrite !glob_loop_snoc by assumption. cbn [negb andb].
    rewrite ancestor_prefixes_snoc in Hq.
    rewrite (Hq (join (init ++ [b]))) by (apply in_or_app; right; left; reflexivity).
    apply Forall_app in H as [Hinit _].
    rewrite IH; [reflexivity | assumption |].
    intros q Hin. apply Hq, in_or_app. left. assumption.
Qed.

End MatcherFacts.

(** C10. For the empty path the loop of [MatchGlobParents] never runs: the
    result is [(false, nil)] for every pattern and every behaviour of the glob
    primitive, so also for a pattern that is syntactically invalid. *)
Theorem MatchGlobParents_empty_path :
  forall (path_Match : string -> string -> internal.match_result) (pattern : string),
    internal.MatchGlobParents path_Match pattern EmptyString = (false, None).
Proof.
  intros M pattern. unfold internal.MatchGlobParents.
  destruct (Go.HasPrefix pattern "/"); apply MatcherFacts.glob_loop_empty.
Qed.

(** C5. For a path of slash-separated segments and a well-formed pattern
    without a leading slash, [MatchGlobParents] returns true exactly when the
    pattern matches an ancestor-prefix path of the path (the path itself
    included), or the base name of the path or of one of its ancestor
    directories; it reports no error. *)
Theorem MatchGlobParents_unanchored :
  forall (path_Match : string -> string -> internal.match_result)
         (pattern : string) (segs : list string),
    Go.HasPrefix pattern "/" = false ->
    Design.well_formed path_Match pattern ->
    Forall Design.segment segs ->
    internal.MatchGlobParents path_Match pattern (Design.join segs)
    = (Design.matches_unanchored path_Match pattern segs, None).
Proof.
  intros M pattern segs Hanchor Hwf Hsegs.
  unfold internal.MatchGlobParents, Design.matches_unanchored. rewrite Hanchor.
  rewrite MatcherFacts.loop_design by assumption. reflexivity.
Qed.

Lemma MatchGlobParents_unanchored_witness :
  internal.MatchGlobParents Glob.Match "*.tmp" (Design.join ["a"; "b"; "c.tmp"])
  = (Design.matches_unanchored Glob.Match "*.tmp" ["a"; "b"; "c.tmp"], None).
Proof.
  apply (MatchGlobParents_unanchored Glob.Match "*.tmp" ["a"; "b"; "c.tmp"]).
  - reflexivity.
  - intros name. reflexivity.
  - repeat constructor; discriminate.
Defined.

(** C6. For a path of slash-separated segments and a pattern written with a
    leading slash, [MatchGlobParents] tests the pattern without that slash:
    when it is well-formed, the result is true exactly when it matches the
    path or an ancestor-prefix path of it. Base names are never tested: the
    result depends on the glob primitive through its answers on the
    ancestor-prefix paths alone. *)
Theorem MatchGlobParents_anchored :
  forall (path_Match : string -> string -> internal.match_result)
         (pattern : string) (segs : list string),
    Forall Design.segment segs ->
    (Design.well_formed path_Match pattern ->
     internal.MatchGlobParents path_Match ("/" +:+ pattern) (Design.join segs)
     = (Design.matches_anchored path_Match pattern segs, None))
    /\ (forall path_Match' : string -> string -> internal.match_result,
          (forall q, In q (Design.ancestor_prefixes segs) ->
                     path_Match' pattern q = path_Match pattern q) ->
          internal.MatchGlobParents path_Match' ("/" +:+ pattern) (Design.join segs)
          = internal.MatchGlobParents path_Match ("/" +:+ pattern) (Design.join segs)).
Proof.
  intros M pattern segs Hsegs. unfold internal.MatchGlobParents.
  rewrite GoFacts.HasPrefix_slash.
  change (Go.tail ("/" +:+ pattern)) with pattern. split.
  - intros Hwf. rewrite MatcherFacts.loop_design by assumption.
    unfold Design.matches_anchored. cbn [negb andb]. rewrite orb_false_r. reflexivity.
  - intros M' Hq. apply MatcherFacts.loop_anchored_queries; assumption.
Qed.

Lemma MatchGlobParents_anchored_witness :
  internal.MatchGlobParents Glob.Match "/a/*" (Design.join ["a"; "b"; "c.tmp"])
  = (Design.matches_anchored Glob.Match "a/*" ["a"; "b"; "c.tmp"], None).
Proof.
  apply (proj1 (MatchGlobParents_anchored Glob.Match "a/*" ["a"; "b"; "c.tmp"]
                  ltac:(repeat constructor; discriminate))).
  intros name. reflexivity.
Defined.

(** ** [FormatBytesSI] *)

Module FormatFacts.
Import Go internal.

Lemma si_loop_step (n div : Z) (exp : nat) :
  FormatBytesSI_loop n div exp =
    if Z_ge_dec n 1000
    then FormatBytesSI_loop (n / 1000) (wrap_int64 (div * 1000)) (S exp)
    else (div, exp).
Proof.
  rewrite FormatBytesSI_loop_equation_1.
  destruct (Z_ge_dec n 1000); reflexivity.
Qed.

(** Each round divides by a thousand, so a quotient below [1000^(k+1)]
    leaves the loop after at most [k] rounds. *)
Lemma si_loop_rounds (k : nat) :
  forall (n div : Z) (exp : nat),
    n < 1000 ^ Z.of_nat (S k) ->
    (snd (FormatBytesSI_loop n div exp) <= exp + k)%nat.
Proof.
  induction k as [|k IH]; intros n div exp Hn; rewrite si_loop_step;
    destruct (Z_ge_dec n 1000) as [Hge|Hlt]; cbn [snd]; try lia.
  assert (Hq : n / 1000 < 1000 ^ Z.of_nat (S k)).
  { apply Z.div_lt_upper_bound; [lia|].
    rewrite <- Z.pow_succ_r by lia. rewrite <- Nat2Z.inj_succ. assumption. }
  specialize (IH (n / 1000) (wrap_int64 (div * 1000)) (S exp) Hq). lia.
Qed.

(** An [int64] of a thousand or more gets one of the six prefixes: the index
    into ["kMGTPE"] is in range. *)
Lemma prefix_in_range (b : Z) :
  b <= int64_max ->
  exists c, index "kMGTPE" (snd (FormatBytesSI_loop (b / 1000) 1000 0)) = Some c.
Proof.
  intros Hb.
  assert (Hq : b / 1000 < 1000 ^ Z.of_nat 6).
  { apply Z.div_lt_upper_bound; [lia|]. unfold int64_max in Hb.
    change (1000 ^ Z.of_nat 6) with 1000000000000000000. lia. }
  pose proof (si_loop_rounds 5 (b / 1000) 1000 0 Hq) as Hexp.
  destruct (snd (FormatBytesSI_loop (b / 1000) 1000 0)) as [|[|[|[|[|[|e]]]]]];
    try (eexists; reflexivity). lia.
Qed.

Lemma wrap_int64_small (z : Z) : is_int64 z -> wrap_int64 z = z.
Proof.
  unfold is_int64, int64_min, int64_max, wrap_int64. intros H.
  rewrite Z.mod_small by lia. lia.
Qed.

(** The branch of [FormatBytesSI] for a magnitude of a thousand or more. *)
Lemma FormatBytesSI_scaled (n : Z) :
  int64_min < n <= int64_max -> 1000 <= Z.abs n ->
  exists (div : Z) (exp : nat) (c : ascii),
    FormatBytesSI_loop (Z.abs n / 1000) 1000 0 = (div, exp)
    /\ index "kMGTPE" exp = Some c
    /\ FormatBytesSI n =
       Some ((if n <? 0 then "-" else "")
             +:+ fmt_1f (float64_div (float64_of_int (Z.abs n)) (float64_of_int div))
             +:+ " " +:+ fmt_c c +:+ "B").
Proof.
  intros Hn Habs. unfold int64_min, int64_max in Hn.
  destruct (prefix_in_range (Z.abs n)) as [c Hc]; [unfold int64_max; lia|].
  destruct (FormatBytesSI_loop (Z.abs n / 1000) 1000 0) as [div exp] eqn:Hloop.
  exists div, exp, c. split; [reflexivity|]. split; [assumption|].
  unfold FormatBytesSI.
  assert (Hb : (if n <? 0 then wrap_int64 (n * -1) else n) = Z.abs n).
  { destruct (Z.ltb_spec n 0).
    - rewrite wrap_int64_small by (unfold is_int64, int64_min, int64_max; lia). lia.
    - lia. }
  rewrite Hb. destruct (Z.ltb_spec (Z.abs n) 1000); [lia|].
  rewrite Hloop. cbn [snd] in Hc. rewrite Hc.
  destruct (n <? 0); reflexivity.
Qed.

(** [FormatBytesSI] returns for every [int64]: the index never panics. *)
Lemma FormatBytesSI_total (b : Z) :
  is_int64 b -> exists s, FormatBytesSI b = Some s.
Proof.
  unfold is_int64. intros Hb.
  destruct (Z.eq_dec b int64_min) as [->|Hmin]; [eexists; vm_compute; reflexivity|].
  destruct (Z_lt_dec (Z.abs b) 1000) as [Hsmall|Hbig].
  - unfold FormatBytesSI.
    assert (Hb' : (if b <? 0 then wrap_int64 (b * -1) else b) = Z.abs b).
    { unfold int64_min, int64_max in *. destruct (Z.ltb_spec b 0).
      - rewrite wrap_int64_small by (unfold is_int64, int64_min, int64_max; lia). lia.
      - lia. }
    rewrite Hb'. destruct (Z.ltb_spec (Z.abs b) 1000); [|lia]. eexists. reflexivity.
  - destruct (FormatBytesSI_scaled b) as (div & exp & c & _ & _ & H); [lia | lia |].
    eexists. exact H.
Qed.

(** [%d] of a positive number starts with a digit. *)
Lemma fmt_d_pos_unsigned (p : positive) (rest : string) :
  HasPrefix (fmt_d (Zpos p) +:+ rest) "-" = false.
Proof.
  unfold fmt_d, HasPrefix. cbn [Z.to_int DecimalString.NilZero.string_of_int].
  destruct (Pos.to_uint p); reflexivity.
Qed.

End FormatFacts.

(** C7. The five sample values of the size formatter. *)
Theorem FormatBytesSI_examples :
  internal.FormatBytesSI 0 = Some "0 B"
  /\ internal.FormatBytesSI 999 = Some "999 B"
  /\ internal.FormatBytesSI 1000 = Some "1.0 kB"
  /\ internal.FormatBytesSI 1500000 = Some "1.5 MB"
  /\ internal.FormatBytesSI (-2000) = Some "-2.0 kB".
Proof. repeat split; vm_compute; reflexivity. Qed.

(** C9. Negating the least [int64] wraps around to itself, so [FormatBytesSI]
    renders it as a plain, still negative, byte count without a prefix; every
    other negative [int64] of magnitude a thousand or more is rendered as a
    minus sign, its absolute value scaled by the power of a thousand the loop
    finds, and one of the six prefixes. *)
Theorem FormatBytesSI_int64_min :
  Go.wrap_int64 (Go.int64_min * -1) = Go.int64_min
  /\ internal.FormatBytesSI Go.int64_min = Some "-9223372036854775808 B"
  /\ forall n : Z,
       Go.int64_min < n <= -1000 ->
       exists (div : Z) (exp : nat) (c : ascii),
         internal.FormatBytesSI_loop (- n / 1000) 1000 0 = (div, exp)
         /\ Go.index "kMGTPE" exp = Some c
         /\ internal.FormatBytesSI n =
            Some ("-" +:+ Go.fmt_1f (Go.float64_div (Go.float64_of_int (- n))
                                                      (Go.float64_of_int div))
                  +:+ " " +:+ Go.fmt_c c +:+ "B").
Proof.
  split; [reflexivity|]. split; [vm_compute; reflexivity|].
  intros n Hn.
  destruct (FormatFacts.FormatBytesSI_scaled n) as (div & exp & c & Hloop & Hc & Hfmt).
  - unfold Go.int64_max. lia.
  - lia.
  - replace (Z.abs n) with (- n) in * by lia.
    exists div, exp, c. split; [assumption|]. split; [assumption|].
    rewrite Hfmt. destruct (Z.ltb_spec n 0); [reflexivity | lia].
Qed.

Lemma FormatBytesSI_int64_min_witness :
  exists (div : Z) (exp : nat) (c : ascii),
    internal.FormatBytesSI_loop (- (-2000) / 1000) 1000 0 = (div, exp)
    /\ Go.index "kMGTPE" exp = Some c
    /\ internal.FormatBytesSI (-2000) =
       Some ("-" +:+ Go.fmt_1f (Go.float64_div (Go.float64_of_int (- (-2000)))
                                                 (Go.float64_of_int div))
             +:+ " " +:+ Go.fmt_c c +:+ "B").
Proof.
  apply (proj2 (proj2 FormatBytesSI_int64_min) (-2000)).
  unfold Go.int64_min. lia.
Defined.

(** C2, as the code has it. A negative input above minus one thousand takes
    the early return of the byte branch, which does not look at the sign: the
    result is the absolute value followed by [" B"], with no minus sign. *)
Theorem FormatBytesSI_small_negative :
  forall n : Z,
    -1000 < n < 0 ->
    internal.FormatBytesSI n = Some (Go.fmt_d (- n) +:+ " B")
    /\ Go.HasPrefix (Go.fmt_d (- n) +:+ " B") "-" = false.
Proof.
  intros n Hn. split.
  - unfold internal.FormatBytesSI.
    destruct (Z.ltb_spec n 0); [|lia].
    rewrite FormatFacts.wrap_int64_small
      by (unfold Go.is_int64, Go.int64_min, Go.int64_max; lia).
    replace (n * -1) with (- n) by lia.
    destruct (Z.ltb_spec (- n) 1000); [reflexivity | lia].
  - destruct n as [|p|p]; try lia. apply FormatFacts.fmt_d_pos_unsigned.
Qed.

Lemma FormatBytesSI_small_negative_witness :
  internal.FormatBytesSI (-5) = Some "5 B"
  /\ Go.HasPrefix "5 B" "-" = false.
Proof.
  apply (FormatBytesSI_small_negative (-5)). lia.
Defined.

(** ** The filter chain *)

Module FilterFacts.
Import Go internal Design main.

Section Matcher.

Variable M : string -> string -> match_result.

(** A well-formed pattern never makes the loop report an error, whatever the
    name. *)
Lemma loop_no_error (pattern : string) (anchor : bool) :
  well_formed M pattern ->
  forall name, snd (MatchGlobParents_loop M pattern anchor name) = None.
Proof.
  intros Hwf name.
  remember (String.length name) as n eqn:Hn. revert name Hn.
  induction n as [n IH] using lt_wf_ind. intros name Hn.
  destruct (String.string_dec name EmptyString) as [->|Hne].
  - rewrite MatcherFacts.glob_loop_empty. reflexivity.
  - rewrite MatcherFacts.glob_loop_step by assumption.
    destruct (settled (M pattern name)); [apply Hwf|].
    destruct (negb anchor && settled (M pattern (snd (Split name)))); [apply Hwf|].
    apply (IH (String.length (TrimRight (fst (Split name)) "/"))); [|reflexivity].
    subst n. apply parent_shorter. assumption.
Qed.

Lemma MatchGlobParents_no_error (filter path : string) :
  well_formed_filter M filter ->
  MatchGlobParents M filter path = (filter_matches M path filter, None).
Proof.
  unfold well_formed_filter, glob_of, filter_matches, MatchGlobParents. intros Hwf.
  destruct (HasPrefix filter "/").
  - pose proof (loop_no_error (tail filter) true Hwf path) as E.
    destruct (MatchGlobParents_loop M (tail filter) true path) as [m e].
    cbn in E. subst e. reflexivity.
  - pose proof (loop_no_error filter false Hwf path) as E.
    destruct (MatchGlobParents_loop M filter false path) as [m e].
    cbn in E. subst e. reflexivity.
Qed.

End Matcher.

Section Filter.

Variable h : host.

(** A pass over well-formed patterns writes nothing and sets the flag when
    one of them matches. *)
Lemma process_patterns_decision (what : string) (on_match : bool) (f : ValvePakFile) :
  forall (patterns : list string) (excluded : bool) (w : world),
    Forall (well_formed_filter (path_Match h)) patterns ->
    process_patterns h what on_match patterns f excluded w =
      (Ok (if existsb (filter_matches (path_Match h) (Path f)) patterns
           then on_match else excluded), w).
Proof.
  induction patterns as [|x rest IH]; intros excluded w Hwf.
  - reflexivity.
  - apply Forall_cons in Hwf as [Hx Hrest].
    cbn [process_patterns existsb].
    rewrite (MatchGlobParents_no_error _ x (Path f) Hx).
    rewrite (IH _ _ Hrest).
    destruct (filter_matches (path_Match h) (Path f) x),
      (existsb (filter_matches (path_Match h) (Path f)) rest), on_match; reflexivity.
Qed.

(** A pass that ends normally has written nothing. *)
Lemma process_patterns_world (what : string) (on_match : bool) (f : ValvePakFile) :
  forall (patterns : list string) (excluded b : bool) (w w' : world),
    process_patterns h what on_match patterns f excluded w = (Ok b, w') -> w' = w.
Proof.
  induction patterns as [|x rest IH]; intros excluded b w w' H.
  - cbn in H. unfold ret in H. congruence.
  - cbn [process_patterns] in H.
    destruct (MatchGlobParents (path_Match h) x (Path f)) as [m [err|]].
    + unfold bind, Fprintf_Stderr, os_Exit in H. discriminate.
    + eapply IH. eassumption.
Qed.

Lemma filter_entry_world (opts : flags) (f : ValvePakFile) (b : bool) (w w' : world) :
  filter_entry h opts f w = (Ok b, w') -> w' = w.
Proof.
  unfold filter_entry, bind. intros H.
  destruct (process_patterns h "excludes" true (Exclude opts) f false w)
    as [[e| |] w1] eqn:H1; try discriminate.
  apply process_patterns_world in H1. apply process_patterns_world in H. congruence.
Qed.

Lemma filter_entry_decision (opts : flags) (f : ValvePakFile) (w : world) :
  Forall (well_formed_filter (path_Match h)) (Exclude opts) ->
  Forall (well_formed_filter (path_Match h)) (Include opts) ->
  filter_entry h opts f w =
    (Ok (is_excluded (path_Match h) (Exclude opts) (Include opts) (Path f)), w).
Proof.
  intros He Hi. unfold filter_entry, bind, is_excluded.
  rewrite process_patterns_decision by assumption.
  rewrite process_patterns_decision by assumption.
  destruct (existsb (filter_matches (path_Match h) (Path f)) (Exclude opts)),
    (existsb (filter_matches (path_Match h) (Path f)) (Include opts)); reflexivity.
Qed.

End Filter.

Lemma existsb_Permutation {A : Type} (p : A -> bool) (l l' : list A) :
  Permutation l l' -> existsb p l = existsb p l'.
Proof.
  induction 1 as [|x l l' _ IH|x y l|l l' l'' _ IH1 _ IH2]; cbn.
  - reflexivity.
  - rewrite IH. reflexivity.
  - destruct (p x), (p y); reflexivity.
  - congruence.
Qed.

End FilterFacts.

(** C4. For well-formed patterns the filter chain of the loop writes nothing
    and decides: excluded exactly when at least one exclude pattern matches
    the entry path and no include pattern does. The decision is the same for
    every order of the patterns within each list, and an entry that no exclude
    pattern matches is not excluded, whatever the include list. *)
Theorem filter_entry_net_effect :
  forall (h : main.host) (opts : main.flags) (f : main.ValvePakFile) (w : main.world),
    Forall (Design.well_formed_filter (main.path_Match h)) (main.Exclude opts) ->
    Forall (Design.well_formed_filter (main.path_Match h)) (main.Include opts) ->
    main.filter_entry h opts f w =
      (main.Ok (Design.is_excluded (main.path_Match h) (main.Exclude opts)
                  (main.Include opts) (main.Path f)), w)
    /\ (forall opts' : main.flags,
          Permutation (main.Exclude opts) (main.Exclude opts') ->
          Permutation (main.Include opts) (main.Include opts') ->
          main.filter_entry h opts' f w = main.filter_entry h opts f w)
    /\ (existsb (Design.filter_matches (main.path_Match h) (main.Path f))
          (main.Exclude opts) = false ->
        main.filter_entry h opts f w = (main.Ok false, w)).
Proof.
  intros h opts f w He Hi.
  pose proof (FilterFacts.filter_entry_decision h opts f w He Hi) as Hd.
  split; [exact Hd|]. split.
  - intros opts' Pe Pi. rewrite Hd.
    rewrite FilterFacts.filter_entry_decision.
    + unfold Design.is_excluded.
      rewrite <- (FilterFacts.existsb_Permutation _ _ _ Pe).
      rewrite <- (FilterFacts.existsb_Permutation _ _ _ Pi). reflexivity.
    + eapply Permutation_Forall; eassumption.
    + eapply Permutation_Forall; eassumption.
  - intros Hnone. rewrite Hd. unfold Design.is_excluded. rewrite Hnone. reflexivity.
Qed.

Lemma filter_entry_net_effect_witness :
  main.filter_entry Scenario.sound Scenario.secrets (Scenario.entry "secrets/key.pem")
    Scenario.empty_out
  = (main.Ok (Design.is_excluded Glob.Match ["/secrets"] ["/secrets/public.txt"]
                "secrets/key.pem"), Scenario.empty_out).
Proof.
  apply (filter_entry_net_effect Scenario.sound Scenario.secrets
           (Scenario.entry "secrets/key.pem") Scenario.empty_out).
  all: repeat constructor.
Defined.

(** ** The loop body *)

Module LoopFacts.
Import Go internal main.

Section Loop.

Variables (h : host) (opts : flags).

(** A rename that fails ends the run with status 1 and leaves the file
    system as it is: nothing removes the temporary file. *)
Lemma rename_temp_failure (f : ValvePakFile) (tf outPath : string) (e : os_error) (w : world) :
  os_Rename h tf outPath w = (Ok (Some e), w) ->
  rename_temp h f tf outPath w =
    (Exit 1,
     {| fs := fs w; stdout := stdout w;
        stderr := stderr w ++ ["error: extract vpk file " +:+ fmt_q (Path f)
                               +:+ ": rename temp file: " +:+ fmt_v e +:+ nl];
        random := random w |}).
Proof. intros H. unfold rename_temp, bind. rewrite H. reflexivity. Qed.

(** A failed [os.Rename] changes nothing. *)
Lemma os_Rename_failure (tf outPath : string) (e : os_error) (w w' : world) :
  os_Rename h tf outPath w = (Ok (Some e), w') -> w' = w.
Proof.
  unfold os_Rename. intros H.
  destruct (fault h (CallRename tf outPath)); [congruence|].
  destruct (fs w !! tf); [|congruence].
  destruct (fs w !! outPath) as [[|d]|]; congruence.
Qed.

End Loop.

End LoopFacts.

(** C8. When the filter chain decides that an entry is excluded, the loop
    body leaves the file system and the standard error stream as they are,
    writes one progress line to the standard output, adds one to the count of
    excluded entries, and the loop goes on with the next entry. *)
Theorem excluded_entry_frame :
  forall (h : main.host) (opts : main.flags) (i total : nat)
         (f : main.ValvePakFile) (rest : list main.ValvePakFile)
         (excludedCount : nat) (w : main.world),
    fst (main.filter_entry h opts f w) = main.Ok true ->
    main.extract_entry h opts i total f excludedCount w =
      (main.Ok (S excludedCount),
       {| main.fs := main.fs w;
          main.stdout := main.stdout w
                         ++ [main.progress i total f +:+ " (excluded)" +:+ main.nl];
          main.stderr := main.stderr w;
          main.random := main.random w |})
    /\ main.extract_entries h opts i total (f :: rest) excludedCount w =
       main.extract_entries h opts (S i) total rest (S excludedCount)
         {| main.fs := main.fs w;
            main.stdout := main.stdout w
                           ++ [main.progress i total f +:+ " (excluded)" +:+ main.nl];
            main.stderr := main.stderr w;
            main.random := main.random w |}.
Proof.
  intros h opts i total f rest n w H.
  destruct (main.filter_entry h opts f w) as [r w1] eqn:Hf. cbn in H. subst r.
  pose proof (FilterFacts.filter_entry_world _ _ _ _ _ _ Hf). subst w1.
  assert (Hbody : main.extract_entry h opts i total f n w =
    (main.Ok (S n),
     {| main.fs := main.fs w;
        main.stdout := main.stdout w
                       ++ [main.progress i total f +:+ " (excluded)" +:+ main.nl];
        main.stderr := main.stderr w;
        main.random := main.random w |})).
  { unfold main.extract_entry, main.bind. rewrite Hf. reflexivity. }
  split; [exact Hbody|].
  cbn [main.extract_entries]. unfold main.bind at 1. rewrite Hbody. reflexivity.
Qed.

Lemma excluded_entry_frame_witness :
  main.extract_entry Scenario.sound Scenario.secrets 0 2 (Scenario.entry "secrets/key.pem")
    0 Scenario.empty_out
  = (main.Ok 1%nat,
     {| main.fs := main.fs Scenario.empty_out;
        main.stdout := ["[   1/   2] secrets/key.pem (excluded)" +:+ main.nl];
        main.stderr := [];
        main.random := 0 |}).
Proof.
  apply (proj1 (excluded_entry_frame Scenario.sound Scenario.secrets 0 2
                  (Scenario.entry "secrets/key.pem") [Scenario.entry "secrets/public.txt"]
                  0 Scenario.empty_out eq_refl)).
Defined.

(** The three failures between the creation of the temporary file and the
    rename (opening the entry, copying its bytes, closing the file) remove the
    temporary file before the run ends with status 1, when the removal itself
    does not fail. *)
Theorem failure_before_rename_removes_temp :
  forall (h : main.host) (opts : main.flags) (f : main.ValvePakFile) (tf data : string)
         (w : main.world),
    main.fault h (main.CallRemove tf) = false ->
    main.fs w !! tf = Some (main.Regular data) ->
    (main.fault h (main.CallOpenFileParallel (main.Path f)) = true ->
     main.open_entry h opts f tf w =
       (main.Exit 1,
        {| main.fs := delete tf (main.fs w);
           main.stdout := main.stdout w;
           main.stderr := main.stderr w
             ++ ["error: read vpk file " +:+ main.fmt_q (main.Path f) +:+ ": "
                 +:+ main.fmt_v main.IOError +:+ main.nl];
           main.random := main.random w |}))
    /\ (forall fr : string,
          main.fault h (main.CallCopy (main.Path f)) = true ->
          main.copy_entry h f tf fr w =
            (main.Exit 1,
             {| main.fs := delete tf (main.fs w);
                main.stdout := main.stdout w;
                main.stderr := main.stderr w
                  ++ ["error: extract vpk file " +:+ main.fmt_q (main.Path f) +:+ ": "
                      +:+ main.fmt_v main.IOError +:+ main.nl];
                main.random := main.random w |}))
    /\ (main.fault h (main.CallClose tf) = true ->
        main.close_temp h f tf w =
          (main.Exit 1,
           {| main.fs := delete tf (main.fs w);
              main.stdout := main.stdout w;
              main.stderr := main.stderr w
                ++ ["error: extract vpk file " +:+ main.fmt_q (main.Path f) +:+ ": "
                    +:+ main.fmt_v main.IOError +:+ main.nl];
              main.random := main.random w |})).
Proof.
  intros h opts f tf data w Hremove Htf.
  assert (Hrm : main.os_Remove h tf w = (main.Ok None, main.with_fs (delete tf (main.fs w)) w)).
  { unfold main.os_Remove. rewrite Hremove, Htf. reflexivity. }
  split; [|split].
  - intros Hfault. unfold main.open_entry, main.bind, main.OpenFileParallel.
    rewrite Hfault. cbn [snd]. rewrite Hrm. reflexivity.
  - intros fr Hfault. unfold main.copy_entry, main.bind, main.io_Copy.
    rewrite Hfault, Hrm. reflexivity.
  - intros Hfault. unfold main.close_temp, main.bind, main.Close.
    rewrite Hfault, Hrm. reflexivity.
Qed.

Lemma failure_before_rename_removes_temp_witness :
  main.open_entry Scenario.reader_fails Scenario.no_filter (Scenario.entry "a.txt")
    "out/.vpk0" Scenario.temp_created
  = (main.Exit 1,
     {| main.fs := delete "out/.vpk0" (main.fs Scenario.temp_created);
        main.stdout := [];
        main.stderr := ["error: read vpk file " +:+ main.fmt_q "a.txt" +:+ ": "
                        +:+ main.fmt_v main.IOError +:+ main.nl];
        main.random := 1 |}).
Proof.
  apply (proj1 (failure_before_rename_removes_temp Scenario.reader_fails Scenario.no_filter
                  (Scenario.entry "a.txt") "out/.vpk0" EmptyString Scenario.temp_created
                  eq_refl eq_refl)).
  reflexivity.
Defined.

(** C1, at the failing inputs. A host that fails the rename, and an archive
    that holds both [a/b] and [a] (the rename of the second entry finds a
    directory in its place): the run ends with status 1, the destination of
    the entry is not written, and the temporary file stays in the output
    directory with the bytes of the entry. *)
Theorem rename_failure_keeps_temp :
  (fst (main.unpack Scenario.rename_fails Scenario.no_filter [Scenario.entry "a.txt"]
          Scenario.empty_out) = main.Exit 1
   /\ main.fs (snd (main.unpack Scenario.rename_fails Scenario.no_filter
                      [Scenario.entry "a.txt"] Scenario.empty_out)) !! "out/a.txt" = None
   /\ main.fs (snd (main.unpack Scenario.rename_fails Scenario.no_filter
                      [Scenario.entry "a.txt"] Scenario.empty_out)) !! "out/.vpk0"
      = Some (main.Regular "data of a.txt"))
  /\ (fst (main.unpack Scenario.sound Scenario.no_filter
             [Scenario.entry "a/b"; Scenario.entry "a"] Scenario.empty_out) = main.Exit 1
      /\ main.fs (snd (main.unpack Scenario.sound Scenario.no_filter
                         [Scenario.entry "a/b"; Scenario.entry "a"] Scenario.empty_out))
           !! "out/.vpk1"
         = Some (main.Regular "data of a")).
Proof. repeat split; vm_compute; reflexivity. Qed.

(** C3, as the code has it. The rename step replaces a regular file that is
    in the place of the destination: when the host does not fail the call, the
    destination holds the bytes of the temporary file afterwards, the
    temporary name is gone, nothing is written to the standard error stream
    and the run goes on. An error is reported, one line on the standard error
    stream, and the run ended with status 1, when the rename itself fails, as
    it does on a directory in the place of the destination. *)
Theorem rename_temp_replaces :
  forall (h : main.host) (f : main.ValvePakFile) (tf outPath : string)
         (data : main.node) (w : main.world),
    main.fault h (main.CallRename tf outPath) = false ->
    main.fs w !! tf = Some data ->
    (forall old : string,
        main.fs w !! outPath = Some (main.Regular old) ->
        main.rename_temp h f tf outPath w =
          (main.Ok tt,
           {| main.fs := <[outPath := data]> (delete tf (main.fs w));
              main.stdout := main.stdout w;
              main.stderr := main.stderr w;
              main.random := main.random w |}))
    /\ (main.fs w !! outPath = Some main.Directory ->
        exists line,
          main.rename_temp h f tf outPath w =
            (main.Exit 1,
             {| main.fs := main.fs w;
                main.stdout := main.stdout w;
                main.stderr := main.stderr w ++ [line];
                main.random := main.random w |})).
Proof.
  intros h f tf outPath data w Hfault Htf. split.
  - intros old Hout. unfold main.rename_temp, main.bind, main.os_Rename.
    rewrite Hfault, Htf, Hout. reflexivity.
  - intros Hout. eexists. apply LoopFacts.rename_temp_failure.
    unfold main.os_Rename. rewrite Hfault, Htf, Hout. reflexivity.
Qed.

Lemma rename_temp_replaces_witness :
  main.rename_temp Scenario.sound (Scenario.entry ".vpkflags") "out/.vpk0" "out/.vpkflags"
    Scenario.manifest_before_rename
  = (main.Ok tt,
     {| main.fs := <["out/.vpkflags" := main.Regular "data of .vpkflags"]>
                     (delete "out/.vpk0" (main.fs Scenario.manifest_before_rename));
        main.stdout := [];
        main.stderr := [];
        main.random := 1 |}).
Proof.
  apply (proj1 (rename_temp_replaces Scenario.sound (Scenario.entry ".vpkflags")
                  "out/.vpk0" "out/.vpkflags" (main.Regular "data of .vpkflags")
                  Scenario.manifest_before_rename eq_refl eq_refl) "flags").
  reflexivity.
Defined.

(** C3, the counterexample. A whole run, from the making of the output
    directory on, over an archive that holds an entry named [.vpkflags]: when
    the loop starts, the destination of the entry is the manifest that was
    just saved; the run ends normally, nothing is written to the standard
    error stream, and the manifest is gone, replaced by the bytes of the
    entry. *)
Lemma run_overwrites_manifest :
  fst (output.prepare_output Scenario.dot_ignored "out" Scenario.nothing) = main.Ok tt
  /\ main.fs (snd (output.prepare_output Scenario.dot_ignored "out" Scenario.nothing))
       !! "out/.vpkflags" = Some (main.Regular "flags")
  /\ fst (output.run Scenario.dot_ignored Scenario.sound Scenario.no_filter
            [Scenario.entry ".vpkflags"] Scenario.nothing) = main.Ok tt
  /\ main.stderr (snd (output.run Scenario.dot_ignored Scenario.sound Scenario.no_filter
                         [Scenario.entry ".vpkflags"] Scenario.nothing)) = []
  /\ main.fs (snd (output.run Scenario.dot_ignored Scenario.sound Scenario.no_filter
                     [Scenario.entry ".vpkflags"] Scenario.nothing)) !! "out/.vpkflags"
     = Some (main.Regular "data of .vpkflags").
Proof. repeat split; vm_compute; reflexivity. Qed.

(** * Further properties of the code *)

(** ** [FormatBytesSI]: the divisor and the sign *)

Module ScaleFacts.
Import Go internal FormatFacts.

(** A quotient below a bound puts the dividend below the product. *)
Lemma div_lt_inv (a d q : Z) : 0 < d -> a / d < q -> a < q * d.
Proof.
  intros Hd Hq. pose proof (Z.div_mod a d ltac:(lia)).
  pose proof (Z.mod_pos_bound a d Hd). nia.
Qed.

(** The loop keeps [div] a power of a thousand that is at most [b], and [n]
    the quotient of [b] by it; the product [div * 1000] never leaves
    [int64]. *)
Lemma si_loop_invariant (b : Z) (k : nat) :
  forall (n div : Z) (exp : nat),
    div = 1000 ^ Z.of_nat (S exp) ->
    n = b / div ->
    div <= b <= int64_max ->
    n < 1000 ^ Z.of_nat (S k) ->
    exists exp' : nat,
      FormatBytesSI_loop n div exp = (1000 ^ Z.of_nat (S exp'), exp')
      /\ (exp <= exp' <= exp + k)%nat
      /\ 1000 ^ Z.of_nat (S exp') <= b < 1000 * 1000 ^ Z.of_nat (S exp').
Proof.
  induction k as [|k IH]; intros n div exp Hdiv Hn Hb Hk; rewrite si_loop_step;
    destruct (Z_ge_dec n 1000) as [Hge|Hlt].
  - change (1000 ^ Z.of_nat 1) with 1000 in Hk. lia.
  - exists exp. split; [congruence|]. split; [lia|].
    assert (0 < div) by (subst div; apply Z.pow_pos_nonneg; lia).
    split; [subst div; lia|].
    rewrite <- Hdiv. apply div_lt_inv; [assumption | lia].
  - assert (Hpos : 0 < div) by (subst div; apply Z.pow_pos_nonneg; lia).
    assert (Hmul : div * 1000 <= b).
    { pose proof (Z.mul_div_le b div Hpos). nia. }
    rewrite wrap_int64_small
      by (unfold is_int64, int64_min, int64_max in *; lia).
    destruct (IH (n / 1000) (div * 1000) (S exp)) as (exp' & Hloop & Hexp & Hbound).
    + rewrite Hdiv, (Nat2Z.inj_succ (S exp)), Z.pow_succ_r by lia. lia.
    + rewrite Hn, Z.div_div by lia. reflexivity.
    + lia.
    + apply Z.div_lt_upper_bound; [lia|].
      rewrite (Nat2Z.inj_succ (S k)), Z.pow_succ_r in Hk by lia. assumption.
    + exists exp'. split; [assumption|]. split; [lia | assumption].
  - exists exp. split; [congruence|]. split; [lia|].
    assert (0 < div) by (subst div; apply Z.pow_pos_nonneg; lia).
    split; [subst div; lia|].
    rewrite <- Hdiv. apply div_lt_inv; [assumption | lia].
Qed.

End ScaleFacts.

(** [FormatBytesSI] returns for every [int64]: the index into ["kMGTPE"] is
    never out of range, so the function never panics. *)
Theorem FormatBytesSI_never_panics :
  forall b : Z,
    Go.is_int64 b -> exists s : string, internal.FormatBytesSI b = Some s.
Proof. intros b Hb. apply FormatFacts.FormatBytesSI_total. assumption. Qed.

Lemma FormatBytesSI_never_panics_witness :
  exists s : string, internal.FormatBytesSI Go.int64_max = Some s.
Proof.
  apply (FormatBytesSI_never_panics Go.int64_max).
  unfold Go.is_int64, Go.int64_min, Go.int64_max. lia.
Defined.

(** For an [int64] of a thousand or more, the divisor the loop ends with is
    the largest power of a thousand that is at most the value, its exponent
    picks the prefix, and computing it never overflows: the result is the
    quotient by that power with one decimal, a space, the prefix and [B]. *)
Theorem FormatBytesSI_largest_divisor :
  forall b : Z,
    1000 <= b <= Go.int64_max ->
    exists (exp : nat) (c : ascii),
      (exp <= 5)%nat
      /\ 1000 ^ Z.of_nat (S exp) <= b < 1000 * 1000 ^ Z.of_nat (S exp)
      /\ internal.FormatBytesSI_loop (b / 1000) 1000 0 = (1000 ^ Z.of_nat (S exp), exp)
      /\ Go.index "kMGTPE" exp = Some c
      /\ internal.FormatBytesSI b =
         Some (Go.fmt_1f (Go.float64_div (Go.float64_of_int b)
                            (Go.float64_of_int (1000 ^ Z.of_nat (S exp))))
               +:+ " " +:+ Go.fmt_c c +:+ "B").
Proof.
  intros b Hb.
  assert (Hq : b / 1000 < 1000 ^ Z.of_nat 6).
  { apply Z.div_lt_upper_bound; [lia|]. unfold Go.int64_max in Hb.
    change (1000 ^ Z.of_nat 6) with 1000000000000000000. lia. }
  destruct (ScaleFacts.si_loop_invariant b 5 (b / 1000) 1000 0)
    as (exp & Hloop & Hexp & Hbound); try (reflexivity || lia || assumption).
  destruct (FormatFacts.FormatBytesSI_scaled b) as (div & exp' & c & Hloop' & Hc & Hfmt).
  - unfold Go.int64_min, Go.int64_max in *. lia.
  - lia.
  - replace (Z.abs b) with b in * by lia.
    rewrite Hloop in Hloop'. injection Hloop' as <- <-.
    exists exp, c. split; [lia|]. split; [assumption|]. split; [assumption|].
    split; [assumption|]. rewrite Hfmt.
    destruct (Z.ltb_spec b 0); [lia | reflexivity].
Qed.

Lemma FormatBytesSI_largest_divisor_witness :
  exists (exp : nat) (c : ascii),
    (exp <= 5)%nat
    /\ 1000 ^ Z.of_nat (S exp) <= 1500000 < 1000 * 1000 ^ Z.of_nat (S exp)
    /\ internal.FormatBytesSI_loop (1500000 / 1000) 1000 0 = (1000 ^ Z.of_nat (S exp), exp)
    /\ Go.index "kMGTPE" exp = Some c
    /\ internal.FormatBytesSI 1500000 =
       Some (Go.fmt_1f (Go.float64_div (Go.float64_of_int 1500000)
                          (Go.float64_of_int (1000 ^ Z.of_nat (S exp))))
             +:+ " " +:+ Go.fmt_c c +:+ "B").
Proof.
  apply (FormatBytesSI_largest_divisor 1500000). unfold Go.int64_max. lia.
Defined.

(** For a magnitude of a thousand or more, the negative of a value is
    rendered as a minus sign followed by the rendering of the value. *)
Theorem FormatBytesSI_negation :
  forall n : Z,
    1000 <= n <= Go.int64_max ->
    exists s : string,
      internal.FormatBytesSI n = Some s
      /\ internal.FormatBytesSI (- n) = Some ("-" +:+ s).
Proof.
  intros n Hn. unfold Go.int64_max in Hn.
  destruct (FormatFacts.FormatBytesSI_scaled n) as (div & exp & c & Hloop & Hc & Hfmt);
    [unfold Go.int64_min, Go.int64_max; lia | lia |].
  destruct (FormatFacts.FormatBytesSI_scaled (- n))
    as (div' & exp' & c' & Hloop' & Hc' & Hfmt');
    [unfold Go.int64_min, Go.int64_max; lia | lia |].
  replace (Z.abs (- n)) with (Z.abs n) in * by lia.
  rewrite Hloop in Hloop'. injection Hloop' as <- <-.
  rewrite Hc in Hc'. injection Hc' as <-.
  eexists. split; [exact Hfmt|]. rewrite Hfmt'.
  destruct (Z.ltb_spec n 0); [lia|]. destruct (Z.ltb_spec (- n) 0); [|lia].
  reflexivity.
Qed.

Lemma FormatBytesSI_negation_witness :
  exists s : string,
    internal.FormatBytesSI 2000 = Some s
    /\ internal.FormatBytesSI (- 2000) = Some ("-" +:+ s).
Proof. apply (FormatBytesSI_negation 2000). unfold Go.int64_max. lia. Defined.

(** ** [MatchGlobParents]: errors, anchoring and directories *)

Module AnchorFacts.
Import Go internal Design DesignFacts MatcherFacts.

Section Matcher.

Variable M : string -> string -> match_result.

(** Where the anchored loop finds a match, the unanchored loop finds one
    too: it makes the same tests and more. *)
Lemma loop_anchor_weaker (pattern : string) :
  well_formed M pattern ->
  forall name,
    fst (MatchGlobParents_loop M pattern true name) = true ->
    fst (MatchGlobParents_loop M pattern false name) = true.
Proof.
  intros Hwf name.
  remember (String.length name) as n eqn:Hn. revert name Hn.
  induction n as [n IH] using lt_wf_ind. intros name Hn.
  destruct (String.string_dec name EmptyString) as [->|Hne].
  - rewrite !glob_loop_empty. discriminate.
  - rewrite (glob_loop_step M pattern true name Hne).
    rewrite (glob_loop_step M pattern false name Hne). cbn [negb andb].
    destruct (well_formed_result M pattern name Hwf) as [E1 E2].
    destruct (well_formed_result M pattern (snd (Split name)) Hwf) as [E3 E4].
    rewrite E2, E4, E1, E3. cbn [fst].
    destruct (glob_matches M pattern name); [trivial|].
    destruct (glob_matches M pattern (snd (Split name))); [trivial|].
    apply (IH (String.length (TrimRight (fst (Split name)) "/"))); [|reflexivity].
    subst n. apply parent_shorter. assumption.
Qed.

(** The ancestor-prefix paths and the segments of a path are among those of
    every path beneath it. *)
Lemma ancestor_prefixes_app (segs more : list string) :
  exists rest, ancestor_prefixes (segs ++ more) = ancestor_prefixes segs ++ rest.
Proof.
  induction more as [|b more [rest IH]] using rev_ind.
  - exists []. rewrite !app_nil_r. reflexivity.
  - exists (rest ++ [join (segs ++ more ++ [b])]).
    rewrite app_assoc, ancestor_prefixes_snoc, IH, <- !app_assoc. reflexivity.
Qed.

Lemma loop_beneath (pattern : string) (anchor : bool) (segs more : list string) :
  well_formed M pattern ->
  Forall segment (segs ++ more) ->
  fst (MatchGlobParents_loop M pattern anchor (join segs)) = true ->
  fst (MatchGlobParents_loop M pattern anchor (join (segs ++ more))) = true.
Proof.
  intros Hwf Hall. pose proof Hall as Hsegs. apply Forall_app in Hsegs as [Hsegs _].
  rewrite !loop_design by assumption. cbn [fst].
  destruct (ancestor_prefixes_app segs more) as [rest ->].
  rewrite !existsb_app.
  destruct (existsb (glob_matches M pattern) (ancestor_prefixes segs)); [trivial|].
  destruct anchor; cbn [negb andb orb]; [discriminate|].
  intros ->. rewrite orb_true_r. reflexivity.
Qed.

End Matcher.

End AnchorFacts.

(** A filter pattern whose glob is well-formed never makes [MatchGlobParents]
    report an error, for any name at all: empty, absolute, with doubled or
    trailing slashes. *)
Theorem MatchGlobParents_well_formed_total :
  forall (path_Match : string -> string -> internal.match_result) (filter name : string),
    Design.well_formed_filter path_Match filter ->
    snd (internal.MatchGlobParents path_Match filter name) = None.
Proof.
  intros M filter name Hwf.
  rewrite (FilterFacts.MatchGlobParents_no_error M filter name Hwf). reflexivity.
Qed.

Lemma MatchGlobParents_well_formed_total_witness :
  snd (internal.MatchGlobParents Glob.Match "/a/*" "//a//b/") = None.
Proof.
  apply (MatchGlobParents_well_formed_total Glob.Match "/a/*" "//a//b/").
  intros name. reflexivity.
Defined.

(** Anchoring only narrows a pattern: whatever name a well-formed glob
    matches when it is written with a leading slash, it matches without
    one. *)
Theorem MatchGlobParents_anchor_narrows :
  forall (path_Match : string -> string -> internal.match_result) (pattern name : string),
    Go.HasPrefix pattern "/" = false ->
    Design.well_formed path_Match pattern ->
    fst (internal.MatchGlobParents path_Match ("/" +:+ pattern) name) = true ->
    fst (internal.MatchGlobParents path_Match pattern name) = true.
Proof.
  intros M pattern name Hfree Hwf. unfold internal.MatchGlobParents.
  rewrite GoFacts.HasPrefix_slash, Hfree.
  change (Go.tail ("/" +:+ pattern)) with pattern.
  apply AnchorFacts.loop_anchor_weaker. assumption.
Qed.

Lemma MatchGlobParents_anchor_narrows_witness :
  fst (internal.MatchGlobParents Glob.Match "a/*" "a/b/c.tmp") = true.
Proof.
  apply (MatchGlobParents_anchor_narrows Glob.Match "a/*" "a/b/c.tmp").
  - reflexivity.
  - intros name. reflexivity.
  - reflexivity.
Defined.

(** A filter pattern that matches a directory matches everything beneath it:
    when a well-formed pattern, anchored or not, matches a path, it matches
    every path that continues it with further segments. *)
Theorem MatchGlobParents_beneath :
  forall (path_Match : string -> string -> internal.match_result)
         (filter : string) (segs more : list string),
    Design.well_formed_filter path_Match filter ->
    Forall Design.segment (segs ++ more) ->
    fst (internal.MatchGlobParents path_Match filter (Design.join segs)) = true ->
    fst (internal.MatchGlobParents path_Match filter (Design.join (segs ++ more))) = true.
Proof.
  intros M filter segs more Hwf Hall.
  unfold Design.well_formed_filter, Design.glob_of in Hwf.
  unfold internal.MatchGlobParents.
  destruct (Go.HasPrefix filter "/"); apply AnchorFacts.loop_beneath; assumption.
Qed.

Lemma MatchGlobParents_beneath_witness :
  fst (internal.MatchGlobParents Glob.Match "/secrets"
         (Design.join (["secrets"] ++ ["keys"; "id.pem"]))) = true.
Proof.
  apply (MatchGlobParents_beneath Glob.Match "/secrets" ["secrets"] ["keys"; "id.pem"]).
  - intros name. reflexivity.
  - repeat constructor; discriminate.
  - reflexivity.
Defined.

(** ** The extraction loop: what a run leaves behind *)

Module RunFacts.
Import Go internal Design main.

Lemma bind_Ok {A B : Type} (m : M A) (k : A -> M B) (w w' : world) (b : B) :
  bind m k w = (Ok b, w') ->
  exists (a : A) (w1 : world), m w = (Ok a, w1) /\ k a w1 = (Ok b, w').
Proof.
  unfold bind. destruct (m w) as [[a| |] w1]; intros H; try discriminate.
  exists a, w1. split; [reflexivity | assumption].
Qed.

(** [mkdirs] only adds directories where nothing was. *)
Lemma mkdirs_frame (prefixes : list string) :
  forall (m m' : gmap string node) (r : option os_error),
    mkdirs prefixes m = (r, m') ->
    forall q, m' !! q = m !! q \/ (m !! q = None /\ m' !! q = Some Directory).
Proof.
  induction prefixes as [|p rest IH]; intros m m' r H q; cbn [mkdirs] in H.
  - injection H as _ <-. left. reflexivity.
  - destruct (m !! p) as [[|d]|] eqn:Hp.
    + eapply IH. eassumption.
    + injection H as _ <-. left. reflexivity.
    + destruct (IH _ _ _ H q) as [E|[E1 E2]].
      * destruct (decide (p = q)) as [->|Hne].
        -- rewrite lookup_insert_eq in E. right. split; assumption.
        -- rewrite lookup_insert_ne in E by assumption. left. assumption.
      * destruct (decide (p = q)) as [->|Hne].
        -- rewrite lookup_insert_eq in E1. discriminate.
        -- rewrite lookup_insert_ne in E1 by assumption. right. split; assumption.
Qed.

(** [os.CreateTemp] creates its file under a name that was free, and does
    nothing else to the file system. *)
Lemma CreateTemp_try_fresh (tries : nat) (dir prefix : string) :
  forall (w w' : world) (name : string) (e : option os_error),
    CreateTemp_try tries dir prefix w = ((name, e), w') ->
    stdout w' = stdout w /\ stderr w' = stderr w
    /\ match e with
       | None => fs w !! name = None
                 /\ fs w' = <[name := Regular EmptyString]> (fs w)
       | Some _ => fs w' = fs w
       end.
Proof.
  induction tries as [|tries IH]; intros w w' name e H; cbn [CreateTemp_try] in H.
  - injection H as <- <- <-. auto.
  - destruct (fs w !! Join dir (prefix +:+ fmt_d (Z.of_nat (random w)))) eqn:Hfree.
    + apply IH in H. cbn [fs stdout stderr] in H. exact H.
    + injection H as <- <- <-. cbn. auto.
Qed.

Section Steps.

Variables (h : host) (opts : flags).

Lemma make_parent_Ok (outPath : string) (w w' : world) :
  make_parent h outPath w = (Ok tt, w') ->
  stdout w' = stdout w /\ stderr w' = stderr w
  /\ forall q, fs w' !! q = fs w !! q
               \/ (fs w !! q = None /\ fs w' !! q = Some Directory).
Proof.
  unfold make_parent, bind, os_MkdirAll.
  destruct (fault h (CallMkdirAll (Dir outPath))); [discriminate|].
  destruct (mkdirs (dir_prefixes EmptyString (Dir outPath)) (fs w)) as [[e|] m] eqn:Hm;
    [discriminate|].
  intros H. injection H as <-. cbn. split; [reflexivity|]. split; [reflexivity|].
  eapply mkdirs_frame. eassumption.
Qed.

Lemma create_temp_Ok (tf : string) (w w' : world) :
  create_temp h opts w = (Ok tf, w') ->
  stdout w' = stdout w /\ stderr w' = stderr w
  /\ fs w !! tf = None
  /\ fs w' = <[tf := Regular EmptyString]> (fs w).
Proof.
  unfold create_temp, bind, os_CreateTemp.
  destruct (fault h (CallCreateTemp (vpkOut opts))); [discriminate|].
  destruct (fs w !! vpkOut opts) as [[|d]|]; try discriminate.
  destruct (CreateTemp_try (100 * 100) (vpkOut opts) ".vpk" w) as [[name e] w1] eqn:Htry.
  apply CreateTemp_try_fresh in Htry as (Hout & Herr & He).
  destruct e as [e|]; cbn [snd fst]; [discriminate|].
  intros H. injection H as <- <-. destruct He. auto.
Qed.

Lemma open_entry_Ok (f : ValvePakFile) (tf fr : string) (w w' : world) :
  open_entry h opts f tf w = (Ok fr, w') -> fr = payload h f /\ w' = w.
Proof.
  unfold open_entry, bind, OpenFileParallel.
  destruct (fault h (CallOpenFileParallel (Path f))); cbn [snd fst].
  - destruct (os_Remove h tf w) as [[a| |] w1]; discriminate.
  - intros H. injection H as <- <-. auto.
Qed.

Lemma copy_entry_Ok (f : ValvePakFile) (tf fr : string) (w w' : world) :
  copy_entry h f tf fr w = (Ok tt, w') ->
  w' = with_fs (<[tf := Regular fr]> (fs w)) w.
Proof.
  unfold copy_entry, bind, io_Copy.
  destruct (fault h (CallCopy (Path f))).
  - destruct (os_Remove h tf w) as [[a| |] w1]; discriminate.
  - intros H. injection H as <-. reflexivity.
Qed.

Lemma close_temp_Ok (f : ValvePakFile) (tf : string) (w w' : world) :
  close_temp h f tf w = (Ok tt, w') -> w' = w.
Proof.
  unfold close_temp, bind, Close.
  destruct (fault h (CallClose tf)).
  - destruct (os_Remove h tf w) as [[a| |] w1]; discriminate.
  - intros H. injection H as <-. reflexivity.
Qed.

Lemma rename_temp_Ok (f : ValvePakFile) (tf outPath : string) (w w' : world) :
  rename_temp h f tf outPath w = (Ok tt, w') ->
  exists n, fs w !! tf = Some n
            /\ w' = with_fs (<[outPath := n]> (delete tf (fs w))) w.
Proof.
  unfold rename_temp, bind, os_Rename.
  destruct (fault h (CallRename tf outPath)); [discriminate|].
  destruct (fs w !! tf) as [n|]; [|discriminate].
  destruct (fs w !! outPath) as [[|d]|]; try discriminate;
    intros H; injection H as <-; exists n; auto.
Qed.

(** Lines 185-221 on success: the destination holds the bytes of the entry,
    every other path is as before or a new directory, and nothing was
    printed. *)
Lemma store_entry_Ok (f : ValvePakFile) (w w' : world) :
  store_entry h opts f w = (Ok tt, w') ->
  fs w' !! Join (vpkOut opts) (FromSlash (Path f)) = Some (Regular (payload h f))
  /\ (forall q, q <> Join (vpkOut opts) (FromSlash (Path f)) ->
                fs w' !! q = fs w !! q
                \/ (fs w !! q = None /\ fs w' !! q = Some Directory))
  /\ stdout w' = stdout w /\ stderr w' = stderr w.
Proof.
  unfold store_entry. intros H.
  apply bind_Ok in H as ([] & w1 & H1 & H).
  apply bind_Ok in H as (tf & w2 & H2 & H).
  apply bind_Ok in H as (fr & w3 & H3 & H).
  apply bind_Ok in H as ([] & w4 & H4 & H).
  apply bind_Ok in H as ([] & w5 & H5 & H).
  apply make_parent_Ok in H1 as (Ho1 & He1 & Hf1).
  apply create_temp_Ok in H2 as (Ho2 & He2 & Hfree & Hf2).
  apply open_entry_Ok in H3 as [-> ->].
  apply copy_entry_Ok in H4. apply close_temp_Ok in H5. subst w5.
  apply rename_temp_Ok in H as (n & Hn & ->). subst w4.
  cbn [fs stdout stderr with_fs] in *.
  rewrite lookup_insert_eq in Hn. injection Hn as <-.
  split; [apply lookup_insert_eq|]. split; [|split; congruence].
  intros q Hq. rewrite lookup_insert_ne by congruence.
  destruct (decide (tf = q)) as [->|Hne].
  - rewrite lookup_delete_eq. destruct (Hf1 q) as [E|[E1 E2]]; [|congruence].
    left. congruence.
  - rewrite lookup_delete_ne, lookup_insert_ne, Hf2, lookup_insert_ne by assumption.
    apply Hf1.
Qed.

End Steps.

End RunFacts.

Module LoopRunFacts.
Import Go internal Design main RunFacts.

(** One more line on the standard error stream, and nothing else changed. *)
Definition complains (w w' : world) : Prop :=
  fs w' = fs w /\ stdout w' = stdout w /\ random w' = random w
  /\ exists line, stderr w' = stderr w ++ [line].

(** A path is as before, or a new directory. *)
Definition kept (m m' : gmap string node) (q : string) : Prop :=
  m' !! q = m !! q \/ (m !! q = None /\ m' !! q = Some Directory).

Lemma kept_refl (m : gmap string node) (q : string) : kept m m q.
Proof. left. reflexivity. Qed.

Lemma kept_trans (m1 m2 m3 : gmap string node) (q : string) :
  kept m1 m2 q -> kept m2 m3 q -> kept m1 m3 q.
Proof.
  unfold kept. intros [E1|[E1 E1']] [E2|[E2 E2']].
  - left. congruence.
  - right. split; congruence.
  - right. split; congruence.
  - congruence.
Qed.

Lemma Join_inj (dir a b : string) : Join dir a = Join dir b -> a = b.
Proof.
  unfold Join. induction dir as [|c dir IH]; intros H.
  - change (String "/" a = String "/" b) in H. congruence.
  - change (String c (dir +:+ "/" +:+ a) = String c (dir +:+ "/" +:+ b)) in H.
    apply IH. congruence.
Qed.

Lemma wrap_int64_is_int64 (z : Z) : is_int64 (wrap_int64 z).
Proof.
  unfold is_int64, wrap_int64, int64_min, int64_max.
  pose proof (Z.mod_pos_bound (z + 2 ^ 63) (2 ^ 64) ltac:(lia)). lia.
Qed.

Section Loop.

Variables (h : host) (opts : flags).

(** A pass over a pattern list ends with the flag the matches give, the world
    untouched, or with status 1 after one complaint. *)
Lemma process_patterns_outcome (what : string) (on_match : bool) (f : ValvePakFile) :
  forall (patterns : list string) (excluded : bool) (w : world),
    match process_patterns h what on_match patterns f excluded w with
    | (Ok b, w') =>
        w' = w
        /\ b = (if existsb (filter_matches (path_Match h) (Path f)) patterns
                then on_match else excluded)
    | (Exit code, w') => code = 1 /\ complains w w'
    | (Panic, _) => False
    end.
Proof.
  induction patterns as [|x rest IH]; intros excluded w; cbn [process_patterns existsb].
  - cbn. auto.
  - unfold filter_matches at 1.
    destruct (MatchGlobParents (path_Match h) x (Path f)) as [m [err|]]; cbn [fst].
    + cbn. split; [reflexivity|]. unfold complains. cbn. eauto 6.
    + specialize (IH (if m then on_match else excluded) w).
      destruct (process_patterns h what on_match rest f
                  (if m then on_match else excluded) w) as [[b| |] w']; [|assumption..].
      destruct IH as [-> ->]. split; [reflexivity|].
      destruct m, (existsb (filter_matches (path_Match h) (Path f)) rest), on_match;
        reflexivity.
Qed.

(** Lines 156-172: the decision of the design, or status 1 after one
    complaint. *)
Lemma filter_entry_outcome (f : ValvePakFile) (w : world) :
  match filter_entry h opts f w with
  | (Ok b, w') =>
      w' = w /\ b = is_excluded (path_Match h) (Exclude opts) (Include opts) (Path f)
  | (Exit code, w') => code = 1 /\ complains w w'
  | (Panic, _) => False
  end.
Proof.
  unfold filter_entry, bind.
  pose proof (process_patterns_outcome "excludes" true f (Exclude opts) false w) as H1.
  destruct (process_patterns h "excludes" true (Exclude opts) f false w)
    as [[b| |] w1]; [|assumption..].
  destruct H1 as [-> ->].
  pose proof (process_patterns_outcome "includes" false f (Include opts)
                (if existsb (filter_matches (path_Match h) (Path f)) (Exclude opts)
                 then true else false) w) as H2.
  destruct (process_patterns h "includes" false (Include opts) f _ w)
    as [[b| |] w2]; [|assumption..].
  destruct H2 as [-> ->]. split; [reflexivity|]. unfold is_excluded.
  destruct (existsb (filter_matches (path_Match h) (Path f)) (Exclude opts)),
    (existsb (filter_matches (path_Match h) (Path f)) (Include opts)); reflexivity.
Qed.

(** The body of the loop, when it ends normally. *)
Lemma extract_entry_Ok (i total : nat) (f : ValvePakFile) (n n' : nat) (w w' : world) :
  extract_entry h opts i total f n w = (Ok n', w') ->
  stderr w' = stderr w
  /\ length (stdout w') = S (length (stdout w))
  /\ if is_excluded (path_Match h) (Exclude opts) (Include opts) (Path f)
     then n' = S n /\ fs w' = fs w
     else n' = n
          /\ fs w' !! Join (vpkOut opts) (FromSlash (Path f))
             = Some (Regular (payload h f))
          /\ forall q, q <> Join (vpkOut opts) (FromSlash (Path f)) ->
                       kept (fs w) (fs w') q.
Proof.
  unfold extract_entry. intros H.
  apply bind_Ok in H as (b & w1 & Hf & H).
  pose proof (filter_entry_outcome f w) as Ho. rewrite Hf in Ho.
  destruct Ho as [-> ->].
  destruct (is_excluded (path_Match h) (Exclude opts) (Include opts) (Path f)).
  - cbn in H. injection H as <- <-. cbn. rewrite length_app. cbn.
    repeat split; lia.
  - apply bind_Ok in H as (size & w2 & Hs & H).
    apply bind_Ok in H as ([] & w3 & Hp & H).
    apply bind_Ok in H as ([] & w4 & Hst & H).
    injection H as <- <-.
    unfold or_panic in Hs. destruct (FormatBytesSI _); [|discriminate].
    injection Hs as <- <-. injection Hp as <-.
    apply store_entry_Ok in Hst as (Hdest & Hframe & Hout & Herr).
    cbn [fs stdout stderr] in *. rewrite Hout, Herr, length_app. cbn.
    repeat split; try lia; assumption.
Qed.

(** Lines 155-224, when the loop ends normally. *)
Lemma extract_entries_Ok :
  forall (files : list ValvePakFile) (i total n n' : nat) (w w' : world),
    extract_entries h opts i total files n w = (Ok n', w') ->
    stderr w' = stderr w
    /\ length (stdout w') = (length (stdout w) + length files)%nat
    /\ n' = (n + length (List.filter (fun f => is_excluded (path_Match h) (Exclude opts)
                                            (Include opts) (Path f)) files))%nat
    /\ forall q,
         (forall f, In f files ->
                    is_excluded (path_Match h) (Exclude opts) (Include opts) (Path f)
                    = false ->
                    q <> Join (vpkOut opts) (FromSlash (Path f))) ->
         kept (fs w) (fs w') q.
Proof.
  induction files as [|f rest IH]; intros i total n n' w w' H; cbn [extract_entries] in H.
  - injection H as <- <-. cbn. repeat split; try lia. intros q _. apply kept_refl.
  - apply bind_Ok in H as (n1 & w1 & H1 & H).
    apply extract_entry_Ok in H1 as (He1 & Ho1 & H1).
    apply IH in H as (He & Ho & Hn & Hframe).
    split; [congruence|].
    split; [change (length (f :: rest)) with (S (length rest)); lia|].
    cbn [List.filter].
    destruct (is_excluded (path_Match h) (Exclude opts) (Include opts) (Path f)) eqn:Hx.
    + destruct H1 as [-> Hfs]. split; [rewrite length_cons; lia|].
      intros q Hq. rewrite <- Hfs. apply Hframe.
      intros g Hg. apply Hq. right. assumption.
    + destruct H1 as (-> & _ & Hkept). split; [lia|].
      intros q Hq. apply kept_trans with (fs w1).
      * apply Hkept. apply Hq; [left; reflexivity | assumption].
      * apply Hframe. intros g Hg. apply Hq. right. assumption.
Qed.

End Loop.

End LoopRunFacts.

(** ** The extraction loop: how a run ends *)

Module ExitFacts.
Import Go internal Design main RunFacts LoopRunFacts.

(** A statement that ends normally without a word on the standard error
    stream, or with status 1 after exactly one line there, and never
    panics. *)
Definition fail_fast {A : Type} (m : M A) : Prop :=
  forall w,
    match m w with
    | (Ok _, w') => stderr w' = stderr w
    | (Exit code, w') => code = 1 /\ exists line, stderr w' = stderr w ++ [line]
    | (Panic, _) => False
    end.

(** A call of the host: it returns, and prints nothing. *)
Definition silent {A : Type} (m : M A) : Prop :=
  forall w, exists a w', m w = (Ok a, w') /\ stderr w' = stderr w.

Lemma fail_fast_bind {A B : Type} (m : M A) (k : A -> M B) :
  fail_fast m -> (forall a, fail_fast (k a)) -> fail_fast (bind m k).
Proof.
  intros Hm Hk w. unfold bind. specialize (Hm w).
  destruct (m w) as [[a| |] w1]; [|assumption..].
  specialize (Hk a w1). destruct (k a w1) as [[b| |] w2].
  - congruence.
  - destruct Hk as [-> [line E]]. split; [reflexivity|]. exists line. congruence.
  - assumption.
Qed.

Lemma fail_fast_silent {A : Type} (m : M A) : silent m -> fail_fast m.
Proof. intros H w. destruct (H w) as (a & w' & -> & E). assumption. Qed.

Lemma fail_fast_ret {A : Type} (a : A) : fail_fast (ret a).
Proof. intros w. reflexivity. Qed.

Lemma fail_fast_Printf (text : string) : fail_fast (Printf text).
Proof. intros w. reflexivity. Qed.

Lemma fail_fast_fatal {A : Type} (text : string) :
  fail_fast (bind (Fprintf_Stderr text) (fun _ => os_Exit (A := A) 1)).
Proof. intros w. cbn. eauto. Qed.

Section Host.

Variables (h : host) (opts : flags).

Lemma silent_MkdirAll (path : string) : silent (os_MkdirAll h path).
Proof.
  intros w. unfold os_MkdirAll. destruct (fault h _); [eauto|].
  destruct (mkdirs _ _) as [e m]. eauto.
Qed.

Lemma silent_CreateTemp (dir prefix : string) : silent (os_CreateTemp h dir prefix).
Proof.
  intros w. unfold os_CreateTemp. destruct (fault h _); [eauto|].
  destruct (fs w !! dir) as [[|d]|]; eauto.
  destruct (CreateTemp_try (100 * 100) dir prefix w) as [[name e] w'] eqn:E.
  apply CreateTemp_try_fresh in E as (_ & E & _). eauto.
Qed.

Lemma silent_OpenFileParallel (f : ValvePakFile) (threads : Z) :
  silent (OpenFileParallel h f threads).
Proof. intros w. unfold OpenFileParallel. destruct (fault h _); eauto. Qed.

Lemma silent_Copy (f : ValvePakFile) (tf fr : string) : silent (io_Copy h f tf fr).
Proof. intros w. unfold io_Copy. destruct (fault h _); eauto. Qed.

Lemma silent_Close (tf : string) : silent (Close h tf).
Proof. intros w. unfold Close. destruct (fault h _); eauto. Qed.

Lemma silent_Remove (name : string) : silent (os_Remove h name).
Proof.
  intros w. unfold os_Remove. destruct (fault h _); [eauto|].
  destruct (fs w !! name) as [[|d]|]; eauto.
Qed.

Lemma silent_Rename (oldpath newpath : string) : silent (os_Rename h oldpath newpath).
Proof.
  intros w. unfold os_Rename. destruct (fault h _); [eauto|].
  destruct (fs w !! oldpath) as [n|]; [|eauto].
  destruct (fs w !! newpath) as [[|d]|]; eauto.
Qed.

Lemma fail_fast_cleanup {A : Type} (tf text : string) :
  fail_fast (bind (os_Remove h tf)
               (fun _ => bind (Fprintf_Stderr text) (fun _ => os_Exit (A := A) 1))).
Proof.
  apply fail_fast_bind; [apply fail_fast_silent, silent_Remove|].
  intros _. apply fail_fast_fatal.
Qed.

Lemma fail_fast_store_entry (f : ValvePakFile) : fail_fast (store_entry h opts f).
Proof.
  unfold store_entry.
  apply fail_fast_bind.
  { unfold make_parent. apply fail_fast_bind; [apply fail_fast_silent, silent_MkdirAll|].
    intros [e|]; [apply fail_fast_fatal | apply fail_fast_ret]. }
  intros _. apply fail_fast_bind.
  { unfold create_temp. apply fail_fast_bind; [apply fail_fast_silent, silent_CreateTemp|].
    intros [name [e|]]; [apply fail_fast_fatal | apply fail_fast_ret]. }
  intros tf. apply fail_fast_bind.
  { unfold open_entry.
    apply fail_fast_bind; [apply fail_fast_silent, silent_OpenFileParallel|].
    intros [fr [e|]]; [apply fail_fast_cleanup | apply fail_fast_ret]. }
  intros fr. apply fail_fast_bind.
  { unfold copy_entry. apply fail_fast_bind; [apply fail_fast_silent, silent_Copy|].
    intros [e|]; [apply fail_fast_cleanup | apply fail_fast_ret]. }
  intros _. apply fail_fast_bind.
  { unfold close_temp. apply fail_fast_bind; [apply fail_fast_silent, silent_Close|].
    intros [e|]; [apply fail_fast_cleanup | apply fail_fast_ret]. }
  intros _. unfold rename_temp.
  apply fail_fast_bind; [apply fail_fast_silent, silent_Rename|].
  intros [e|]; [apply fail_fast_fatal | apply fail_fast_ret].
Qed.

Lemma fail_fast_filter_entry (f : ValvePakFile) : fail_fast (filter_entry h opts f).
Proof.
  intros w. pose proof (filter_entry_outcome h opts f w) as H.
  destruct (filter_entry h opts f w) as [[b| |] w'].
  - destruct H as [-> _]. reflexivity.
  - destruct H as (-> & _ & _ & _ & Hline). auto.
  - assumption.
Qed.

Lemma fail_fast_extract_entry (i total : nat) (f : ValvePakFile) (n : nat) :
  fail_fast (extract_entry h opts i total f n).
Proof.
  unfold extract_entry. apply fail_fast_bind; [apply fail_fast_filter_entry|].
  intros [|].
  - apply fail_fast_bind; [apply fail_fast_Printf|]. intros _. apply fail_fast_ret.
  - apply fail_fast_bind.
    { intros w. unfold or_panic.
      destruct (FormatFacts.FormatBytesSI_total (wrap_int64 (uncompressed_size f))
                  (wrap_int64_is_int64 _)) as [s ->]. reflexivity. }
    intros size. apply fail_fast_bind; [apply fail_fast_Printf|].
    intros _. apply fail_fast_bind; [apply fail_fast_store_entry|].
    intros _. apply fail_fast_ret.
Qed.

Lemma fail_fast_extract_entries (files : list ValvePakFile) :
  forall i total n, fail_fast (extract_entries h opts i total files n).
Proof.
  induction files as [|f rest IH]; intros i total n; cbn [extract_entries].
  - apply fail_fast_ret.
  - apply fail_fast_bind; [apply fail_fast_extract_entry|]. intros n1. apply IH.
Qed.

(** A glob on which [path.Match] always reports an error makes the matcher
    report one for every name but the empty one. *)
Lemma MatchGlobParents_error (x name : string) :
  (forall name', snd (path_Match h (glob_of x) name') <> None) ->
  name <> EmptyString ->
  snd (MatchGlobParents (path_Match h) x name) <> None.
Proof.
  intros Hbad Hne. unfold MatchGlobParents, glob_of in *.
  destruct (HasPrefix x "/"); rewrite MatcherFacts.glob_loop_step by assumption;
    specialize (Hbad name); unfold settled;
    destruct (path_Match h _ name) as [m [e|]]; cbn [fst snd] in *;
    try congruence; rewrite orb_true_r; cbn; congruence.
Qed.

(** A pass that ends normally met no error of the matcher. *)
Lemma process_patterns_Ok_clean (what : string) (on_match : bool) (f : ValvePakFile) :
  forall (patterns : list string) (excluded b : bool) (w w' : world),
    process_patterns h what on_match patterns f excluded w = (Ok b, w') ->
    forall x, In x patterns -> snd (MatchGlobParents (path_Match h) x (Path f)) = None.
Proof.
  induction patterns as [|y rest IH]; intros excluded b w w' H x Hx; [destruct Hx|].
  cbn [process_patterns] in H.
  destruct (MatchGlobParents (path_Match h) y (Path f)) as [m [err|]] eqn:Hy.
  - cbn in H. discriminate.
  - destruct Hx as [<-|Hx]; [rewrite Hy; reflexivity|]. eapply IH; eassumption.
Qed.

End Host.

End ExitFacts.

(** ** Clean paths: where joining is concatenation *)

Module FilepathFacts.
Import Go filepath.

Lemma elements_app (a b : string) :
  forall cur, elements cur (a +:+ "/" +:+ b) = elements cur a ++ elements EmptyString b.
Proof.
  induction a as [|c a IH]; intros cur.
  - reflexivity.
  - change (String c a +:+ "/" +:+ b) with (String c (a +:+ "/" +:+ b)).
    cbn [elements]. destruct (Ascii.eqb c "/"); rewrite IH; reflexivity.
Qed.

Lemma elements_cons (p : string) :
  forall cur, exists e es, elements cur p = e :: es.
Proof.
  induction p as [|c p IH]; intros cur; cbn [elements]; [eauto|].
  destruct (Ascii.eqb c "/"); eauto.
Qed.

(** Joining the elements of a path by slashes gives the path back. *)
Lemma concat_elements (p : string) :
  forall cur, String.concat "/" (elements cur p) = cur +:+ p.
Proof.
  induction p as [|c p IH]; intros cur; cbn [elements].
  - cbn. induction cur as [|x cur IHc]; [reflexivity|].
    change (String x cur = String x (cur +:+ "")). congruence.
  - destruct (Ascii.eqb_spec c "/") as [->|Hc].
    + destruct (elements_cons p EmptyString) as (e & es & E).
      specialize (IH EmptyString). rewrite E in *.
      change (String.concat "/" (cur :: e :: es))
        with (cur +:+ "/" +:+ String.concat "/" (e :: es)).
      rewrite IH. reflexivity.
    + rewrite IH, GoFacts.append_assoc. reflexivity.
Qed.

(** [Clean] keeps a run of names as it is. *)
Lemma fold_names (rooted : bool) (es : list string) :
  forallb is_name es = true ->
  forall kept, fold_left (clean_step rooted) es kept = rev es ++ kept.
Proof.
  induction es as [|e es IH]; intros H kept; [reflexivity|].
  cbn [forallb] in H. apply andb_true_iff in H as [He Hes].
  cbn [fold_left rev]. rewrite (IH Hes), <- app_assoc. cbn [app].
  f_equal. unfold clean_step, is_name in *.
  destruct (String.eqb e EmptyString), (String.eqb e "."), (String.eqb e "..");
    cbn in He; (discriminate || reflexivity).
Qed.

(** A clean relative path starts with a byte that is not a slash. *)
Lemma clean_relative_head (p : string) :
  clean_relative p = true ->
  exists c rest, p = String c rest /\ Ascii.eqb c "/" = false.
Proof.
  unfold clean_relative. destruct p as [|c rest]; [discriminate|].
  intros H. exists c, rest. split; [reflexivity|].
  cbn [elements] in H. destruct (Ascii.eqb c "/"); [discriminate | reflexivity].
Qed.

Lemma Clean_relative (p : string) :
  clean_relative p = true -> Clean p = p.
Proof.
  intros H. destruct (clean_relative_head p H) as (c & rest & -> & Hc).
  unfold Clean, HasPrefix. cbn [String.prefix].
  destruct (ascii_dec "/" c) as [<-|_]; [discriminate|].
  rewrite (fold_names false _ H), app_nil_r, rev_involutive, concat_elements.
  reflexivity.
Qed.

Lemma Clean_rooted (p : string) :
  clean_relative p = true -> Clean ("/" +:+ p) = "/" +:+ p.
Proof.
  intros H. unfold Clean. rewrite GoFacts.HasPrefix_slash.
  change (elements EmptyString ("/" +:+ p)) with (EmptyString :: elements EmptyString p).
  cbn [fold_left]. change (clean_step true [] EmptyString) with (@nil string).
  rewrite (fold_names true _ H), app_nil_r, rev_involutive, concat_elements.
  reflexivity.
Qed.

Lemma clean_relative_app (a b : string) :
  clean_relative a = true -> clean_relative b = true ->
  clean_relative (a +:+ "/" +:+ b) = true.
Proof.
  unfold clean_relative. intros Ha Hb.
  rewrite elements_app, forallb_app, Ha, Hb. reflexivity.
Qed.

Lemma elements_no_slash (p : string) :
  has_byte "/" p = false -> forall cur, elements cur p = [cur +:+ p].
Proof.
  induction p as [|c p IH]; intros H cur; cbn [elements].
  - f_equal. induction cur as [|x cur IHc]; [reflexivity|].
    change (String x cur = String x (cur +:+ "")). congruence.
  - cbn [has_byte] in H. apply orb_false_iff in H as [Hc Hp].
    rewrite Ascii.eqb_sym, Hc, (IH Hp), GoFacts.append_assoc. reflexivity.
Qed.

(** A name without a slash is a clean relative path. *)
Lemma clean_relative_name (name : string) :
  is_name name = true -> has_byte "/" name = false -> clean_relative name = true.
Proof.
  intros Hname Hslash. unfold clean_relative.
  rewrite (elements_no_slash name Hslash). cbn [forallb].
  change (EmptyString +:+ name) with name. rewrite Hname. reflexivity.
Qed.

(** On a clean output path and a clean relative path, [filepath.Join] is the
    two joined by a slash: the cleaning changes nothing. *)
Lemma Join_clean (dir name : string) :
  clean_output dir = true -> clean_relative name = true ->
  Join dir name = main.Join dir name.
Proof.
  unfold clean_output, main.Join. intros Hdir Hname.
  destruct (HasPrefix dir "/") eqn:Hroot.
  - destruct dir as [|c dir]; [discriminate|].
    unfold HasPrefix in Hroot. cbn [String.prefix] in Hroot.
    destruct (ascii_dec "/" c) as [<-|_]; [|discriminate].
    cbn [tail] in Hdir. unfold Join.
    change (String "/" dir +:+ "/" +:+ name) with ("/" +:+ (dir +:+ "/" +:+ name)).
    apply Clean_rooted, clean_relative_app; assumption.
  - destruct (clean_relative_head dir Hdir) as (c & rest & -> & _). unfold Join.
    apply Clean_relative, clean_relative_app; assumption.
Qed.

End FilepathFacts.

(** When an entry with a clean relative path is stored under a clean output
    path without an error (lines 185-221), its destination, the two joined
    by [filepath.Join], holds exactly the bytes the archive reader yields for
    it; every other path of the file system is as before, or is a directory
    made on the way to the destination, so no temporary file is left; and
    nothing was printed. *)
Theorem store_entry_writes_destination :
  forall (h : main.host) (opts : main.flags) (f : main.ValvePakFile) (w : main.world),
    filepath.clean_output (main.vpkOut opts) = true ->
    filepath.clean_relative (main.Path f) = true ->
    fst (main.store_entry h opts f w) = main.Ok tt ->
    main.fs (snd (main.store_entry h opts f w))
      !! filepath.Join (main.vpkOut opts) (main.FromSlash (main.Path f))
    = Some (main.Regular (main.payload h f))
    /\ (forall q,
          q <> filepath.Join (main.vpkOut opts) (main.FromSlash (main.Path f)) ->
          main.fs (snd (main.store_entry h opts f w)) !! q = main.fs w !! q
          \/ (main.fs w !! q = None
              /\ main.fs (snd (main.store_entry h opts f w)) !! q
                 = Some main.Directory))
    /\ main.stdout (snd (main.store_entry h opts f w)) = main.stdout w
    /\ main.stderr (snd (main.store_entry h opts f w)) = main.stderr w.
Proof.
  intros h opts f w Hout Hpath H. unfold main.FromSlash.
  rewrite (FilepathFacts.Join_clean _ _ Hout Hpath).
  destruct (main.store_entry h opts f w) as [r w'] eqn:E. cbn [fst snd] in *. subst r.
  apply (RunFacts.store_entry_Ok h opts f w w' E).
Qed.

Lemma store_entry_writes_destination_witness :
  main.fs (snd (main.store_entry Scenario.sound Scenario.no_filter
                  (Scenario.entry "a/b.txt") Scenario.empty_out))
    !! filepath.Join "out" "a/b.txt"
  = Some (main.Regular "data of a/b.txt").
Proof.
  apply (proj1 (store_entry_writes_destination Scenario.sound Scenario.no_filter
                  (Scenario.entry "a/b.txt") Scenario.empty_out eq_refl eq_refl
                  ltac:(vm_compute; reflexivity))).
Defined.

(** When the loop over the archive ends normally, it has printed one line per
    entry to the standard output and none to the standard error, and the
    count of excluded entries has grown by the number of entries the filter
    excludes. *)
Theorem extract_entries_progress :
  forall (h : main.host) (opts : main.flags) (files : list main.ValvePakFile)
         (i total n n' : nat) (w : main.world),
    fst (main.extract_entries h opts i total files n w) = main.Ok n' ->
    main.stderr (snd (main.extract_entries h opts i total files n w)) = main.stderr w
    /\ length (main.stdout (snd (main.extract_entries h opts i total files n w)))
       = (length (main.stdout w) + length files)%nat
    /\ n' = (n + length (List.filter
                          (fun f => Design.is_excluded (main.path_Match h)
                                      (main.Exclude opts) (main.Include opts)
                                      (main.Path f)) files))%nat.
Proof.
  intros h opts files i total n n' w H.
  destruct (main.extract_entries h opts i total files n w) as [r w'] eqn:E.
  cbn [fst snd] in *. subst r.
  apply LoopRunFacts.extract_entries_Ok in E as (He & Ho & Hn & _). auto.
Qed.

Lemma extract_entries_progress_witness :
  main.stderr (snd (main.extract_entries Scenario.sound Scenario.secrets 0 3
                      Scenario.archive 0 Scenario.empty_out)) = []
  /\ length (main.stdout (snd (main.extract_entries Scenario.sound Scenario.secrets 0 3
                                 Scenario.archive 0 Scenario.empty_out))) = (0 + 3)%nat
  /\ 1%nat = (0 + length (List.filter
                           (fun f => Design.is_excluded Glob.Match ["/secrets"]
                                       ["/secrets/public.txt"] (main.Path f))
                           Scenario.archive))%nat.
Proof.
  apply (extract_entries_progress Scenario.sound Scenario.secrets Scenario.archive
           0 3 0 1 Scenario.empty_out).
  vm_compute. reflexivity.
Defined.

(** When the loop ends normally over entries with clean relative paths,
    under a clean output path, the only paths it has changed are the
    destinations of the entries the filter retains: every other path is as
    before, or is a new directory. Nothing that existed was removed, no
    excluded entry was written and no temporary file is left. *)
Theorem extract_entries_frame :
  forall (h : main.host) (opts : main.flags) (files : list main.ValvePakFile)
         (i total n n' : nat) (w : main.world) (q : string),
    filepath.clean_output (main.vpkOut opts) = true ->
    (forall f, In f files -> filepath.clean_relative (main.Path f) = true) ->
    fst (main.extract_entries h opts i total files n w) = main.Ok n' ->
    (forall f, In f files ->
               Design.is_excluded (main.path_Match h) (main.Exclude opts)
                 (main.Include opts) (main.Path f) = false ->
               q <> filepath.Join (main.vpkOut opts) (main.FromSlash (main.Path f))) ->
    main.fs (snd (main.extract_entries h opts i total files n w)) !! q = main.fs w !! q
    \/ (main.fs w !! q = None
        /\ main.fs (snd (main.extract_entries h opts i total files n w)) !! q
           = Some main.Directory).
Proof.
  intros h opts files i total n n' w q Hout Hclean H Hq.
  destruct (main.extract_entries h opts i total files n w) as [r w'] eqn:E.
  cbn [fst snd] in *. subst r.
  apply LoopRunFacts.extract_entries_Ok in E as (_ & _ & _ & Hframe).
  apply Hframe. intros f Hf Hx.
  unfold main.FromSlash in *.
  rewrite <- (FilepathFacts.Join_clean _ _ Hout (Hclean f Hf)). apply Hq; assumption.
Qed.

Lemma extract_entries_frame_witness :
  main.fs (snd (main.extract_entries Scenario.sound Scenario.secrets 0 3
                  Scenario.archive 0 Scenario.empty_out)) !! "out/secrets/key.pem"
  = main.fs Scenario.empty_out !! "out/secrets/key.pem"
  \/ (main.fs Scenario.empty_out !! "out/secrets/key.pem" = None
      /\ main.fs (snd (main.extract_entries Scenario.sound Scenario.secrets 0 3
                         Scenario.archive 0 Scenario.empty_out)) !! "out/secrets/key.pem"
         = Some main.Directory).
Proof.
  apply (extract_entries_frame Scenario.sound Scenario.secrets Scenario.archive
           0 3 0 1 Scenario.empty_out "out/secrets/key.pem").
  - reflexivity.
  - intros f [<-|[<-|[<-|[]]]]; reflexivity.
  - vm_compute. reflexivity.
  - intros f [<-|[<-|[<-|[]]]]; vm_compute; congruence.
Defined.

(** When the loop ends normally over an archive whose entry paths are clean
    relative paths and distinct, under a clean output path, every entry the
    filter retains is in its place, the output path and the entry path joined
    by [filepath.Join], with the bytes the archive reader yields for it. *)
Theorem extract_entries_stores_retained :
  forall (h : main.host) (opts : main.flags) (files : list main.ValvePakFile)
         (i total n n' : nat) (w : main.world) (f : main.ValvePakFile),
    filepath.clean_output (main.vpkOut opts) = true ->
    (forall g, In g files -> filepath.clean_relative (main.Path g) = true) ->
    fst (main.extract_entries h opts i total files n w) = main.Ok n' ->
    NoDup (map main.Path files) ->
    In f files ->
    Design.is_excluded (main.path_Match h) (main.Exclude opts) (main.Include opts)
      (main.Path f) = false ->
    main.fs (snd (main.extract_entries h opts i total files n w))
      !! filepath.Join (main.vpkOut opts) (main.FromSlash (main.Path f))
    = Some (main.Regular (main.payload h f)).
Proof.
  intros h opts files i total n n' w f Hout Hclean H Hnd Hin Hf.
  unfold main.FromSlash. rewrite (FilepathFacts.Join_clean _ _ Hout (Hclean f Hin)).
  clear Hout Hclean. revert i total n n' w f H Hnd Hin Hf.
  induction files as [|g rest IH]; intros i total n n' w f H Hnd Hin Hf.
  - destruct Hin.
  - destruct (main.extract_entries h opts i total (g :: rest) n w) as [r w'] eqn:E.
    cbn [fst snd] in *. subst r. cbn [main.extract_entries] in E.
    apply RunFacts.bind_Ok in E as (n1 & w1 & E1 & E).
    apply LoopRunFacts.extract_entry_Ok in E1 as (_ & _ & E1).
    apply NoDup_cons in Hnd as [Hfresh Hnd].
    destruct Hin as [->|Hin].
    + rewrite Hf in E1. destruct E1 as (_ & Hdest & _).
      pose proof (LoopRunFacts.extract_entries_Ok h opts rest _ _ _ _ _ _ E)
        as (_ & _ & _ & Hframe).
      destruct (Hframe (main.Join (main.vpkOut opts) (main.Path f)))
        as [Hsame|[Hnone _]];
        [|unfold main.FromSlash in *; congruence|unfold main.FromSlash in *; congruence].
      intros g Hg _ Heq. apply LoopRunFacts.Join_inj in Heq.
      apply Hfresh. unfold main.FromSlash in Heq. rewrite Heq.
      apply list_elem_of_In, in_map, Hg.
    + specialize (IH (S i) total n1 n' w1 f). rewrite E in IH. cbn [fst snd] in IH.
      apply IH; (reflexivity || assumption).
Qed.

Lemma extract_entries_stores_retained_witness :
  main.fs (snd (main.extract_entries Scenario.sound Scenario.secrets 0 3
                  Scenario.archive 0 Scenario.empty_out))
    !! filepath.Join "out" "secrets/public.txt"
  = Some (main.Regular "data of secrets/public.txt").
Proof.
  apply (extract_entries_stores_retained Scenario.sound Scenario.secrets Scenario.archive
           0 3 0 1 Scenario.empty_out (Scenario.entry "secrets/public.txt")).
  - reflexivity.
  - intros g [<-|[<-|[<-|[]]]]; reflexivity.
  - vm_compute. reflexivity.
  - compute_done.
  - right. left. reflexivity.
  - vm_compute. reflexivity.
Defined.

(** A run of the loop and the closing lines never panics, and it ends in one
    of two ways only: normally, with nothing written to the standard error
    stream, or with status 1 after exactly one line written there. *)
Theorem unpack_fail_fast :
  forall (h : main.host) (opts : main.flags) (files : list main.ValvePakFile)
         (w : main.world),
    match main.unpack h opts files w with
    | (main.Ok _, w') => main.stderr w' = main.stderr w
    | (main.Exit code, w') =>
        code = 1 /\ exists line, main.stderr w' = main.stderr w ++ [line]
    | (main.Panic, _) => False
    end.
Proof.
  intros h opts files. change (ExitFacts.fail_fast (main.unpack h opts files)).
  unfold main.unpack.
  apply ExitFacts.fail_fast_bind; [apply ExitFacts.fail_fast_extract_entries|].
  intros n. apply ExitFacts.fail_fast_bind; [apply ExitFacts.fail_fast_Printf|].
  intros _. destruct (Nat.eqb n 0); apply ExitFacts.fail_fast_Printf.
Qed.

(** A filter pattern on whose glob [path.Match] always reports an error, in
    either list, ends the run at the first entry with a path that is not
    empty: status 1, one line on the standard error stream, and neither the
    file system nor the standard output touched. *)
Theorem malformed_pattern_aborts :
  forall (h : main.host) (opts : main.flags) (i total : nat) (f : main.ValvePakFile)
         (n : nat) (w : main.world) (x : string),
    In x (main.Exclude opts ++ main.Include opts) ->
    (forall name, snd (main.path_Match h (Design.glob_of x) name) <> None) ->
    main.Path f <> EmptyString ->
    exists line,
      main.extract_entry h opts i total f n w =
        (main.Exit 1,
         {| main.fs := main.fs w;
            main.stdout := main.stdout w;
            main.stderr := main.stderr w ++ [line];
            main.random := main.random w |}).
Proof.
  intros h opts i total f n w x Hin Hbad Hne.
  pose proof (ExitFacts.MatchGlobParents_error h x (main.Path f) Hbad Hne) as Herr.
  assert (Hexit : exists w', main.filter_entry h opts f w = (main.Exit 1, w')
                             /\ LoopRunFacts.complains w w').
  { pose proof (LoopRunFacts.filter_entry_outcome h opts f w) as Ho.
    destruct (main.filter_entry h opts f w) as [[b| |] w'] eqn:E.
    - exfalso. unfold main.filter_entry in E.
      apply RunFacts.bind_Ok in E as (b1 & w1 & E1 & E2).
      apply in_app_or in Hin as [Hin|Hin].
      + apply Herr.
        apply (ExitFacts.process_patterns_Ok_clean h _ _ f _ _ _ _ _ E1 x Hin).
      + apply Herr.
        apply (ExitFacts.process_patterns_Ok_clean h _ _ f _ _ _ _ _ E2 x Hin).
    - destruct Ho as [-> Hc]. eauto.
    - destruct Ho. }
  destruct Hexit as (w' & E & Hfs & Hout & Hrnd & line & Hline).
  exists line. unfold main.extract_entry, main.bind. rewrite E.
  destruct w' as [m o e r]. cbn in *. subst. reflexivity.
Qed.

Lemma malformed_pattern_aborts_witness :
  exists line,
    main.extract_entry Scenario.sound Scenario.broken 0 1 (Scenario.entry "a.txt") 0
      Scenario.empty_out =
      (main.Exit 1,
       {| main.fs := main.fs Scenario.empty_out;
          main.stdout := [];
          main.stderr := [] ++ [line];
          main.random := 0 |}).
Proof.
  apply (malformed_pattern_aborts Scenario.sound Scenario.broken 0 1
           (Scenario.entry "a.txt") 0 Scenario.empty_out "[").
  - right. left. reflexivity.
  - intros name. discriminate.
  - discriminate.
Defined.

(** ** The output directory *)

Module OutputFacts.
Import Go internal main output RunFacts.

Lemma length_append (a b : string) :
  String.length (a +:+ b) = (String.length a + String.length b)%nat.
Proof.
  induction a as [|c a IH]; [reflexivity|].
  change (String c a +:+ b) with (String c (a +:+ b)). cbn [String.length Nat.add].
  rewrite IH. reflexivity.
Qed.

Lemma Join_longer (dir name : string) : Join dir name <> dir.
Proof.
  unfold Join. intros E. apply (f_equal String.length) in E.
  rewrite !length_append in E. cbn in E. lia.
Qed.

Lemma strip_prefix_app (prefix rest : string) :
  strip_prefix prefix (prefix +:+ rest) = Some rest.
Proof.
  induction prefix as [|c prefix IH]; [destruct rest; reflexivity|].
  change (String c prefix +:+ rest) with (String c (prefix +:+ rest)).
  cbn [strip_prefix]. rewrite Ascii.eqb_refl. assumption.
Qed.

Lemma child_name_Join (dir name : string) :
  name <> EmptyString -> has_byte "/" name = false ->
  child_name dir (Join dir name) = Some name.
Proof.
  intros Hne Hslash. unfold child_name, Join.
  rewrite <- GoFacts.append_assoc, strip_prefix_app, Hslash.
  destruct name; [congruence | reflexivity].
Qed.

(** [os.ReadDir] lists every entry that lies directly in the directory. *)
Lemma dir_names_elem (dir name : string) (m : gmap string node) (x : node) :
  m !! Join dir name = Some x ->
  name <> EmptyString -> has_byte "/" name = false ->
  In name (dir_names dir m).
Proof.
  intros Hm Hne Hslash. apply list_elem_of_In. unfold dir_names.
  rewrite merge_sort_Permutation. apply list_elem_of_omap.
  exists (Join dir name). split; [|apply child_name_Join; assumption].
  apply list_elem_of_In, in_map_iff. exists (Join dir name, x).
  split; [reflexivity|]. apply list_elem_of_In, elem_of_map_to_list. assumption.
Qed.

Section Setup.

Variable s : setup.

Lemma check_entries_Exit (names : list string) (w : world) :
  (exists name, In name names /\ vpkIgnore_Match s name = false) ->
  exists line,
    check_entries s names w =
      (Exit 1, {| fs := fs w; stdout := stdout w; stderr := stderr w ++ [line];
                  random := random w |}).
Proof.
  induction names as [|n rest IH]; intros (name & Hin & Hname); [destruct Hin|].
  cbn [check_entries]. destruct (vpkIgnore_Match s n) eqn:Hn; cbn [negb].
  - apply IH. exists name. destruct Hin as [->|Hin]; [congruence | auto].
  - eexists. reflexivity.
Qed.

Lemma check_entries_Ok (names : list string) (w w' : world) :
  check_entries s names w = (Ok tt, w') ->
  w' = w /\ forall name, In name names -> vpkIgnore_Match s name = true.
Proof.
  induction names as [|n rest IH]; cbn [check_entries].
  - intros H. injection H as <-. split; [reflexivity|]. intros name [].
  - destruct (vpkIgnore_Match s n) eqn:Hn; cbn [negb]; [|discriminate].
    intros H. apply IH in H as [-> Hrest]. split; [reflexivity|].
    intros name [<-|Hin]; auto.
Qed.

Lemma create_output_Ok (vpkOut : string) (w w' : world) :
  create_output s vpkOut w = (Ok tt, w') ->
  stderr w' = stderr w
  /\ fs w' !! vpkOut = Some Directory
  /\ (forall q, q <> vpkOut -> fs w' !! q = fs w !! q)
  /\ (forall name x, fs w !! Join vpkOut name = Some x ->
                     name <> EmptyString -> has_byte "/" name = false ->
                     vpkIgnore_Match s name = true).
Proof.
  unfold create_output. intros H.
  apply bind_Ok in H as ([] & w1 & H1 & H). injection H1 as <-.
  apply bind_Ok in H as (err & w2 & H2 & H).
  apply bind_Ok in H as ([] & w3 & H3 & H).
  apply bind_Ok in H as ([names e] & w4 & H4 & H). cbn [fst snd] in H.
  assert (Hw2 : stderr w2 = stderr w
                /\ (forall q, q <> vpkOut -> fs w2 !! q = fs w !! q)).
  { unfold os_Mkdir in H2. cbn [fs stderr] in H2.
    destruct (fault s (CallMkdir vpkOut)); [injection H2 as _ <-; auto|].
    destruct (fs w !! vpkOut); [injection H2 as _ <-; auto|].
    destruct (parent_error vpkOut (fs w)); injection H2 as _ <-; [auto|].
    cbn. split; [reflexivity|]. intros q Hq. apply lookup_insert_ne. congruence. }
  destruct Hw2 as [He2 Hf2].
  assert (w3 = w2) as ->.
  { destruct err as [[]|]; unfold bind, Fprintf_Stderr, os_Exit, ret in H3;
      congruence. }
  unfold os_ReadDir in H4.
  destruct (fault s (CallReadDir vpkOut)); [injection H4 as <- <- <-; discriminate|].
  destruct (fs w2 !! vpkOut) as [[|d]|] eqn:Hdir;
    injection H4 as <- <- <-; try discriminate.
  apply check_entries_Ok in H as [-> Hall].
  split; [assumption|]. split; [assumption|]. split; [assumption|].
  intros name x Hx Hne Hslash. apply Hall.
  apply (dir_names_elem vpkOut name (fs w2) x); [|assumption..].
  rewrite Hf2; [assumption|]. apply Join_longer.
Qed.

Lemma save_manifest_Ok (vpkOut name text : string) (w w' : world) :
  save_manifest s vpkOut name text w = (Ok tt, w') ->
  stderr w' = stderr w
  /\ fs w' = <[Join vpkOut name := Regular text]> (fs w).
Proof.
  unfold save_manifest. intros H.
  apply bind_Ok in H as ([] & w1 & H1 & H). injection H1 as <-.
  apply bind_Ok in H as (err & w2 & H2 & H).
  unfold os_WriteFile in H2. cbn [fs stderr] in H2.
  destruct (fault s (CallWriteFile (Join vpkOut name)));
    [injection H2 as <- <-; discriminate|].
  destruct (fs w !! Join vpkOut name) as [[|d]|];
    try (injection H2 as <- <-; discriminate);
    (destruct (parent_error (Join vpkOut name) (fs w));
     injection H2 as <- <-; [discriminate|]; injection H as <-; auto).
Qed.

End Setup.

End OutputFacts.

(** A run against an output directory that holds an entry which [vpkIgnore]
    does not match ends with status 1 and one line on the standard error
    stream before anything is written: the file system is as it was, whatever
    the archive, the filters and the failures of the host. *)
Theorem run_rejects_occupied_output :
  forall (s : output.setup) (h : main.host) (opts : main.flags)
         (files : list main.ValvePakFile) (w : main.world) (name : string) (x : main.node),
    main.fs w !! main.vpkOut opts = Some main.Directory ->
    main.fs w !! main.Join (main.vpkOut opts) name = Some x ->
    name <> EmptyString ->
    Go.has_byte "/" name = false ->
    output.vpkIgnore_Match s name = false ->
    exists line,
      output.run s h opts files w =
        (main.Exit 1,
         {| main.fs := main.fs w;
            main.stdout := main.stdout w ++ ["... creating output directory" +:+ main.nl];
            main.stderr := main.stderr w ++ [line];
            main.random := main.random w |}).
Proof.
  intros s h opts files w name x Hdir Hx Hne Hslash Hign.
  unfold output.run, output.prepare_output, output.create_output, main.bind at 1 2 3 4.
  cbn [main.Printf]. unfold main.bind at 1, output.os_Mkdir. cbn [main.fs].
  destruct (output.fault s (output.CallMkdir (main.vpkOut opts))).
  { eexists. reflexivity. }
  rewrite Hdir. unfold main.bind, main.ret, output.os_ReadDir. cbn [main.fs].
  destruct (output.fault s (output.CallReadDir (main.vpkOut opts))).
  { eexists. reflexivity. }
  rewrite Hdir. cbn [fst snd].
  edestruct (OutputFacts.check_entries_Exit s
               (output.dir_names (main.vpkOut opts) (main.fs w))) as [line ->].
  { exists name. split; [|assumption].
    eapply OutputFacts.dir_names_elem; eassumption. }
  exists line. reflexivity.
Qed.

Lemma run_rejects_occupied_output_witness :
  exists line,
    output.run Scenario.dot_ignored Scenario.sound Scenario.secrets Scenario.archive
      Scenario.occupied_out =
      (main.Exit 1,
       {| main.fs := main.fs Scenario.occupied_out;
          main.stdout := [] ++ ["... creating output directory" +:+ main.nl];
          main.stderr := [] ++ [line];
          main.random := 0 |}).
Proof.
  apply (run_rejects_occupied_output Scenario.dot_ignored Scenario.sound Scenario.secrets
           Scenario.archive Scenario.occupied_out "a.txt" (main.Regular "old")).
  - reflexivity.
  - reflexivity.
  - discriminate.
  - reflexivity.
  - reflexivity.
Defined.

(** When a clean output path is prepared without an error (lines 122-151),
    it is a directory, every name that was in it is one that [vpkIgnore]
    matches, the two manifests, at the output path joined with their names by
    [filepath.Join], hold the generated texts, every other path is as before,
    and nothing was written to the standard error stream. *)
Theorem prepare_output_postcondition :
  forall (s : output.setup) (vpkOut : string) (w : main.world),
    filepath.clean_output vpkOut = true ->
    fst (output.prepare_output s vpkOut w) = main.Ok tt ->
    main.fs (snd (output.prepare_output s vpkOut w)) !! vpkOut = Some main.Directory
    /\ main.fs (snd (output.prepare_output s vpkOut w)) !! filepath.Join vpkOut ".vpkflags"
       = Some (main.Regular (output.vpkFlags_String s))
    /\ main.fs (snd (output.prepare_output s vpkOut w)) !! filepath.Join vpkOut ".vpkignore"
       = Some (main.Regular (output.vpkIgnore_String s))
    /\ (forall name x,
          filepath.is_name name = true -> Go.has_byte "/" name = false ->
          main.fs w !! filepath.Join vpkOut name = Some x ->
          output.vpkIgnore_Match s name = true)
    /\ (forall q,
          q <> vpkOut -> q <> filepath.Join vpkOut ".vpkflags" ->
          q <> filepath.Join vpkOut ".vpkignore" ->
          main.fs (snd (output.prepare_output s vpkOut w)) !! q = main.fs w !! q)
    /\ main.stderr (snd (output.prepare_output s vpkOut w)) = main.stderr w.
Proof.
  intros s vpkOut w Hout H.
  rewrite !(FilepathFacts.Join_clean vpkOut _ Hout) by reflexivity.
  destruct (output.prepare_output s vpkOut w) as [r w'] eqn:E.
  cbn [fst snd] in *. subst r. unfold output.prepare_output in E.
  apply RunFacts.bind_Ok in E as ([] & w1 & E1 & E).
  apply RunFacts.bind_Ok in E as ([] & w2 & E2 & E).
  apply RunFacts.bind_Ok in E as ([] & w3 & E3 & E).
  injection E as <-. cbn [main.fs main.stderr].
  apply OutputFacts.create_output_Ok in E1 as (He1 & Hdir & Hframe & Hign).
  apply OutputFacts.save_manifest_Ok in E2 as (He2 & Hf2).
  apply OutputFacts.save_manifest_Ok in E3 as (He3 & Hf3).
  rewrite Hf3, Hf2.
  assert (Hne : main.Join vpkOut ".vpkignore" <> main.Join vpkOut ".vpkflags").
  { intros Heq. apply LoopRunFacts.Join_inj in Heq. discriminate. }
  split; [|split; [|split; [|split; [|split]]]].
  - rewrite !lookup_insert_ne by apply OutputFacts.Join_longer. assumption.
  - rewrite lookup_insert_ne by assumption. apply lookup_insert_eq.
  - apply lookup_insert_eq.
  - intros name x Hname Hslash Hx.
    rewrite (FilepathFacts.Join_clean vpkOut name Hout) in Hx
      by (apply FilepathFacts.clean_relative_name; assumption).
    apply (Hign name x Hx); [|assumption].
    intros ->. discriminate.
  - intros q Hq1 Hq2 Hq3. rewrite !lookup_insert_ne by congruence. apply Hframe. assumption.
  - congruence.
Qed.

Lemma prepare_output_postcondition_witness :
  main.fs (snd (output.prepare_output Scenario.dot_ignored "out" Scenario.empty_out))
    !! filepath.Join "out" ".vpkflags" = Some (main.Regular "flags").
Proof.
  apply (proj1 (proj2 (prepare_output_postcondition Scenario.dot_ignored "out"
                         Scenario.empty_out eq_refl ltac:(vm_compute; reflexivity)))).
Defined.

(** ** The size shown for an entry *)

Module SizeFacts.
Import Go main Design.

Lemma fold_wrap (chunks : list ValvePakChunk) :
  forall u : Z,
    fold_left (fun u c => wrap_uint64 (u + UncompressedSize c)) chunks (wrap_uint64 u)
    = wrap_uint64 (u + total_size chunks).
Proof.
  induction chunks as [|c rest IH]; intros u; cbn [fold_left total_size fold_right].
  - rewrite Z.add_0_r. reflexivity.
  - assert (E : wrap_uint64 (wrap_uint64 u + UncompressedSize c)
                 = wrap_uint64 (u + UncompressedSize c))
      by (unfold wrap_uint64; apply Zplus_mod_idemp_l).
    rewrite E, IH. f_equal. unfold total_size. lia.
Qed.

End SizeFacts.

(** The size the loop shows for an entry (lines 179-183) is the sum of its
    chunk sizes modulo [2^64], read as an [int64]: the exact sum when that is
    below [2^63], and a negative number when the sum is between [2^63] and
    [2^64]. *)
Theorem uncompressed_size_sum :
  forall f : main.ValvePakFile,
    main.uncompressed_size f = Design.total_size (main.Chunk f) mod 2 ^ 64
    /\ (0 <= Design.total_size (main.Chunk f) < 2 ^ 63 ->
        Go.wrap_int64 (main.uncompressed_size f) = Design.total_size (main.Chunk f))
    /\ (2 ^ 63 <= Design.total_size (main.Chunk f) < 2 ^ 64 ->
        Go.wrap_int64 (main.uncompressed_size f)
        = Design.total_size (main.Chunk f) - 2 ^ 64).
Proof.
  intros f.
  assert (E : main.uncompressed_size f = Design.total_size (main.Chunk f) mod 2 ^ 64).
  { unfold main.uncompressed_size.
    change 0 with (Go.wrap_uint64 0) at 1. rewrite SizeFacts.fold_wrap. reflexivity. }
  split; [exact E|]. rewrite E. unfold Go.wrap_int64. split; intros H.
  - rewrite (Z.mod_small (Design.total_size _)) by lia.
    rewrite Z.mod_small by lia. lia.
  - rewrite (Z.mod_small (Design.total_size _)) by lia.
    replace (Design.total_size (main.Chunk f) + 2 ^ 63)
      with (Design.total_size (main.Chunk f) - 2 ^ 63 + 1 * 2 ^ 64) by lia.
    rewrite Z.mod_add by lia. rewrite Z.mod_small by lia. lia.
Qed.

Lemma uncompressed_size_sum_witness :
  Go.wrap_int64 (main.uncompressed_size (Scenario.entry "a.txt")) = 2000.
Proof.
  apply (proj1 (proj2 (uncompressed_size_sum (Scenario.entry "a.txt")))).
  vm_compute. split; [discriminate | reflexivity].
Defined.
